(** * prose-writer: the accumulation-and-rendering engine

    A shallow embedding of [ProseWriter] (src/unnamed/part_002, the
    safe-mode revision of src/prose-writer.ts, together with [nextLine]
    and [fill] from src/src/prose-writer.ts).

    Strings are sequences of code units.  The embedding uses [string], so a
    character is a code unit in the range U+0000..U+00FF; [trim],
    [toLowerCase], the regular-expression classes and [encodeURI] are
    given for that range.  Number arguments are left out of
    [ContentValue]: only strings, booleans, writers and [SafeString]s are
    modelled.

    A mutating method [m(args): this] becomes a function
    [m args : ProseWriter -> ProseWriter]; the [padding] getter, which
    clears the one-shot flag, returns the prefix together with the updated
    writer.  A builder callback is a function on the object it receives. *)

From Stdlib Require Import String Ascii List Bool Arith Lia Btauto.
Import ListNotations.
Local Open Scope string_scope.

(* ================================================================= *)
(** ** Host-language string primitives *)

Module JS.

Definition LF : ascii := "010"%char.
Definition nl : string := String LF "".

(** [String.prototype.startsWith] / [endsWith] (position argument absent). *)
Definition startsWith (s pre : string) : bool := String.prefix pre s.

Definition endsWith (s suf : string) : bool :=
  let n := String.length s in
  let m := String.length suf in
  Nat.leb m n && String.eqb (substring (n - m) m s) suf.

(** WhiteSpace and LineTerminator code units below U+0100:
    TAB, LF, VT, FF, CR, SP and NBSP. *)
Definition isWhiteSpace (c : ascii) : bool :=
  let n := nat_of_ascii c in
  existsb (Nat.eqb n) [9; 10; 11; 12; 13; 32; 160]%nat.

Fixpoint trimStart (s : string) : string :=
  match s with
  | "" => ""
  | String c s' => if isWhiteSpace c then trimStart s' else s
  end.

Fixpoint trimEnd (s : string) : string :=
  match s with
  | "" => ""
  | String c s' =>
      let t := trimEnd s' in
      if isWhiteSpace c && String.eqb t "" then "" else String c t
  end.

Definition trim (s : string) : string := trimStart (trimEnd s).

(** [s.split('\n')]: never the empty array. *)
Fixpoint split_nl (s : string) : list string :=
  match s with
  | "" => [""]
  | String c s' =>
      match split_nl s' with
      | [] => [String c ""]
      | l :: ls => if Ascii.eqb c LF then "" :: l :: ls else String c l :: ls
      end
  end.

(** [xs.join(sep)]. *)
Definition join (sep : string) (xs : list string) : string := String.concat sep xs.

(** [s.repeat(n)]. *)
Fixpoint repeat (s : string) (n : nat) : string :=
  match n with
  | O => ""
  | S k => s ++ repeat s k
  end.

(** [s.replace(/c/g, rep)] for a one-character pattern. *)
Fixpoint replaceAll (c : ascii) (rep : string) (s : string) : string :=
  match s with
  | "" => ""
  | String a s' =>
      if Ascii.eqb a c then rep ++ replaceAll c rep s'
      else String a (replaceAll c rep s')
  end.

(** [s.replace(/([cls])/g, '\\$1')]: a backslash before every character of
    the class. *)
Fixpoint backslashAll (cls : ascii -> bool) (s : string) : string :=
  match s with
  | "" => ""
  | String a s' =>
      if cls a then String "\"%char (String a (backslashAll cls s'))
      else String a (backslashAll cls s')
  end.

Definition inRange (lo hi : nat) (c : ascii) : bool :=
  let n := nat_of_ascii c in Nat.leb lo n && Nat.leb n hi.

Definition isDigit (c : ascii) : bool := inRange 48 57 c.
Definition isLowerAz (c : ascii) : bool := inRange 97 122 c.
Definition isUpperAz (c : ascii) : bool := inRange 65 90 c.

(** [toLowerCase] on U+0000..U+00FF: A-Z, and U+00C0..U+00DE but U+00D7. *)
Definition lowerChar (c : ascii) : ascii :=
  let n := nat_of_ascii c in
  if isUpperAz c then ascii_of_nat (n + 32)
  else if inRange 192 222 c && negb (Nat.eqb n 215) then ascii_of_nat (n + 32)
  else c.

Fixpoint toLowerCase (s : string) : string :=
  match s with
  | "" => ""
  | String c s' => String (lowerChar c) (toLowerCase s')
  end.

(** Two upper-case hexadecimal digits. *)
Definition hexDigit (n : nat) : ascii :=
  if Nat.ltb n 10 then ascii_of_nat (48 + n) else ascii_of_nat (55 + n).

Definition percent (n : nat) : string :=
  String "%"%char (String (hexDigit (n / 16)) (String (hexDigit (n mod 16)) "")).

(** Characters [encodeURI] leaves alone: alphanumerics, the URI marks
    and the reserved characters together with the number sign. *)
Definition uriKeep (c : ascii) : bool :=
  isLowerAz c || isUpperAz c || isDigit c
  || existsb (Ascii.eqb c)
       (list_ascii_of_string ";/?:@&=+$,-_.!~*'()#").

Definition encodeChar (c : ascii) : string :=
  let n := nat_of_ascii c in
  if uriKeep c then String c ""
  else if Nat.ltb n 128 then percent n
  else percent (192 + n / 64) ++ percent (128 + n mod 64).

Fixpoint encodeURI (s : string) : string :=
  match s with
  | "" => ""
  | String c s' => encodeChar c ++ encodeURI s'
  end.

(** Decimal rendering of an array index ([String(n)], [n] a small natural). *)
Fixpoint decimalFuel (fuel n : nat) (acc : string) : string :=
  match fuel with
  | O => acc
  | S f =>
      let acc' := String (ascii_of_nat (48 + n mod 10)) acc in
      if Nat.eqb (n / 10) 0 then acc' else decimalFuel f (n / 10) acc'
  end.

Definition decimal (n : nat) : string := decimalFuel (S n) n "".

End JS.

Import JS.

(* ================================================================= *)
(** ** The writer and its content values *)

(** [class ProseWriter]: [parts], [_skipNextPadding], [safeMode]. *)
Record ProseWriter : Type := mkWriter {
  parts : list string;
  skipNextPadding : bool;
  safeMode : bool
}.

(** [new ProseWriter(undefined, { safe })]. *)
Definition newWriter (safe : bool) : ProseWriter := mkWriter [] false safe.

(** [new ProseWriter(content, { safe })]. *)
Definition seededWriter (content : string) (safe : bool) : ProseWriter :=
  mkWriter [if endsWith content nl then content else content ++ nl] false safe.

Definition createChildWriter (this : ProseWriter) : ProseWriter :=
  newWriter (safeMode this).

(** [toString()] is [parts.join('')]. *)
Definition toString (this : ProseWriter) : string := join "" (parts this).

(** [this.parts.push(s)]. *)
Definition push (s : string) (this : ProseWriter) : ProseWriter :=
  mkWriter (parts this ++ [s])%list (skipNextPadding this) (safeMode this).

(** The [padding] getter: the prefix, and the writer with the one-shot
    flag cleared where the getter clears it. *)
Definition padding (this : ProseWriter) : string * ProseWriter :=
  if skipNextPadding this || Nat.eqb (List.length (parts this)) 0 then
    ("", mkWriter (parts this) false (safeMode this))
  else
    let lastPart := List.last (parts this) "" in
    if endsWith lastPart (nl ++ nl) then ("", this)
    else if endsWith lastPart nl then (nl, this)
    else (nl ++ nl, this).

(** [this.parts.push(`${this.padding}${body}`)]. *)
Definition pushPadded (body : string) (this : ProseWriter) : ProseWriter :=
  let (p, this') := padding this in push (p ++ body) this'.

Definition nextLine (this : ProseWriter) : ProseWriter :=
  mkWriter (parts this) true (safeMode this).

Definition raw (content : string) (this : ProseWriter) : ProseWriter :=
  push content this.

(** [WriterValue | SafeString], without numbers. *)
Inductive ContentValue : Type :=
| VString (s : string)
| VBoolean (b : bool)
| VWriter (w : ProseWriter)
| VSafe (s : string).

(** [String(content)] and template-literal interpolation. *)
Definition jsString (content : ContentValue) : string :=
  match content with
  | VString s => s
  | VBoolean b => if b then "true" else "false"
  | VWriter w => toString w
  | VSafe s => s
  end.

(* ================================================================= *)
(** ** Escaping layer *)

Definition escapeXmlText (value : string) : string :=
  replaceAll ">" "&gt;" (replaceAll "<" "&lt;" (replaceAll "&" "&amp;" value)).

(** The leading [\s*] of a line and what follows it. *)
Fixpoint spanWhiteSpace (s : string) : string * string :=
  match s with
  | "" => ("", "")
  | String c s' =>
      if isWhiteSpace c then
        let (ws, rest) := spanWhiteSpace s' in (String c ws, rest)
      else ("", s)
  end.

Fixpoint spanClass (cls : ascii -> bool) (s : string) : string * string :=
  match s with
  | "" => ("", "")
  | String c s' =>
      if cls c then let (run, rest) := spanClass cls s' in (String c run, rest)
      else ("", s)
  end.

Definition headIs (cls : ascii -> bool) (s : string) : bool :=
  match s with
  | "" => false
  | String c _ => cls c
  end.

Definition isChar (a : ascii) (c : ascii) : bool := Ascii.eqb c a.

Definition inClass (cls : string) (c : ascii) : bool :=
  existsb (Ascii.eqb c) (list_ascii_of_string cls).

Definition escapeMarkdownLineStart (line : string) : string :=
  let (ws, rest) := spanWhiteSpace line in
  let (hashes, afterHashes) := spanClass (isChar "#") rest in
  let (digits, afterDigits) := spanClass isDigit rest in
  (* /^\s*#{1,6}\s/ *)
  if Nat.leb 1 (String.length hashes) && Nat.leb (String.length hashes) 6
     && headIs isWhiteSpace afterHashes then
    ws ++ "\" ++ rest
  (* /^\s*>/ *)
  else if headIs (isChar ">") rest then
    ws ++ "\" ++ rest
  (* /^\s*([-+*])\s/ *)
  else if headIs (inClass "-+*") rest
          && headIs isWhiteSpace (substring 1 (String.length rest - 1) rest) then
    ws ++ "\" ++ rest
  (* /^\s*\d+\.\s/ *)
  else if Nat.leb 1 (String.length digits) && headIs (isChar ".") afterDigits
          && headIs isWhiteSpace
               (substring 1 (String.length afterDigits - 1) afterDigits) then
    ws ++ digits ++ "\" ++ afterDigits
  else line.

Definition escapeMarkdownText (value : string) : string :=
  let escaped :=
    replaceAll "]" "\]"
      (replaceAll "[" "\["
         (backslashAll (inClass "\`*_~()|!") (escapeXmlText value))) in
  join nl (map escapeMarkdownLineStart (split_nl escaped)).

(** The longest run of backticks in [value] ([cur] is the run being read). *)
Fixpoint longestBackticks (value : string) (cur best : nat) : nat :=
  match value with
  | "" => Nat.max cur best
  | String c s' =>
      if Ascii.eqb c "`" then longestBackticks s' (S cur) best
      else longestBackticks s' 0 (Nat.max cur best)
  end.

Definition endsWithWhiteSpace (value : string) : bool :=
  negb (String.eqb (trimEnd value) value).

Definition wrapInlineCode (value : string) : string :=
  let fenceSize := longestBackticks value 0 0 + 1 in
  let fence := repeat "`" fenceSize in
  let needsPadding := headIs isWhiteSpace value || endsWithWhiteSpace value in
  let content := if needsPadding then " " ++ value ++ " " else value in
  fence ++ content ++ fence.

Definition escapeLinkDestination (url : string) : string :=
  backslashAll (inClass "()") (encodeURI url).

Definition isSchemeChar (c : ascii) : bool :=
  isLowerAz c || isDigit c || inClass "+.-" c.

(** [/^[a-z][a-z0-9+.-]*:/.test(lower)]. *)
Definition hasScheme (lower : string) : bool :=
  match lower with
  | "" => false
  | String c rest =>
      isLowerAz c && headIs (isChar ":") (snd (spanClass isSchemeChar rest))
  end.

(** [/^(https?|mailto):/.test(lower)]. *)
Definition allowedScheme (lower : string) : bool :=
  startsWith lower "http:" || startsWith lower "https:"
  || startsWith lower "mailto:".

Definition sanitizeLinkDestination (url : string) : string :=
  let trimmed := trim url in
  let lower := toLowerCase trimmed in
  if hasScheme lower && negb (allowedScheme lower) then "#"
  else escapeLinkDestination trimmed.

(* ================================================================= *)
(** ** Content conversion and inline formatters *)

Inductive TrimMode : Type := TrimNone | TrimEnd | TrimBoth.

(** Returns [{ value, isTrusted }]. *)
Definition toContentString (content : ContentValue) (mode : TrimMode)
  : string * bool :=
  match content with
  | VSafe s => (s, true)
  | VWriter w =>
      let raw := toString w in
      match mode with
      | TrimEnd => (trimEnd raw, true)
      | TrimBoth => (trim raw, true)
      | TrimNone => (raw, true)
      end
  | _ => (jsString content, false)
  end.

Definition toSafeInlineText (content : ContentValue) : string :=
  let (value, isTrusted) := toContentString content TrimBoth in
  if isTrusted then value else escapeMarkdownText value.

Definition asSafeString (value : string) : ContentValue := VSafe value.

Definition safeBold (content : ContentValue) : ContentValue :=
  asSafeString ("**" ++ toSafeInlineText content ++ "**").

Definition safeItalic (content : ContentValue) : ContentValue :=
  asSafeString ("*" ++ toSafeInlineText content ++ "*").

Definition safeStrike (content : ContentValue) : ContentValue :=
  asSafeString ("~~" ++ toSafeInlineText content ++ "~~").

Definition safeInlineCode (content : ContentValue) : ContentValue :=
  asSafeString (wrapInlineCode (fst (toContentString content TrimBoth))).

Definition safeLink (text : ContentValue) (url : string) : ContentValue :=
  let (value, isTrusted) := toContentString text TrimBoth in
  let safeText := if isTrusted then value else escapeMarkdownText value in
  let safeUrl := sanitizeLinkDestination url in
  asSafeString ("[" ++ safeText ++ "](" ++ safeUrl ++ ")").

Definition safeImage (alt : ContentValue) (url : string) : ContentValue :=
  let (value, isTrusted) := toContentString alt TrimBoth in
  let safeAlt := if isTrusted then value else escapeMarkdownText value in
  let safeUrl := sanitizeLinkDestination url in
  asSafeString ("![" ++ safeAlt ++ "](" ++ safeUrl ++ ")").

(** [content instanceof ProseWriter ? content.toString().trim() : content],
    interpolated. *)
Definition plainInlineText (content : ContentValue) : string :=
  match content with
  | VWriter w => trim (toString w)
  | _ => jsString content
  end.

Definition bold (content : ContentValue) : ContentValue :=
  VString ("**" ++ plainInlineText content ++ "**").

Definition italic (content : ContentValue) : ContentValue :=
  VString ("*" ++ plainInlineText content ++ "*").

Definition code (content : ContentValue) : ContentValue :=
  VString ("`" ++ plainInlineText content ++ "`").

Definition inline := code.

Definition strike (content : ContentValue) : ContentValue :=
  VString ("~~" ++ plainInlineText content ++ "~~").

Definition link (text : ContentValue) (url : string) : ContentValue :=
  VString ("[" ++ plainInlineText text ++ "](" ++ url ++ ")").

Definition image (alt : ContentValue) (url : string) : ContentValue :=
  VString ("![" ++ plainInlineText alt ++ "](" ++ url ++ ")").

(** The formatters the [enhanced] proxy of a writer answers with. *)
Module Enhanced.
Definition bold (w : ProseWriter) := if safeMode w then safeBold else bold.
Definition italic (w : ProseWriter) := if safeMode w then safeItalic else italic.
Definition code (w : ProseWriter) := if safeMode w then safeInlineCode else code.
Definition inline (w : ProseWriter) := if safeMode w then safeInlineCode else inline.
Definition strike (w : ProseWriter) := if safeMode w then safeStrike else strike.
Definition link (w : ProseWriter) := if safeMode w then safeLink else link.
Definition image (w : ProseWriter) := if safeMode w then safeImage else image.
End Enhanced.

(* ================================================================= *)
(** ** Appending methods *)

(** A builder callback [(writer) => void], as its effect on the writer it
    is handed. *)
Definition Builder : Type := ProseWriter -> ProseWriter.

(** [safeMode && !isTrusted ? escapeMarkdownText(value) : value]. *)
Definition escapeUntrusted (safe : bool) (content : ContentValue)
  (mode : TrimMode) : string :=
  let (value, isTrusted) := toContentString content mode in
  if safe && negb isTrusted then escapeMarkdownText value else value.

Definition write (content : list ContentValue) (this : ProseWriter)
  : ProseWriter :=
  let joined :=
    join " " (map (fun c => escapeUntrusted (safeMode this) c TrimEnd) content) in
  if Nat.eqb (List.length (parts this)) 0 && Nat.eqb (String.length joined) 0
  then this
  else
    let (p, this') := padding this in
    push (p ++ joined ++ nl) this'.

(** The rendering of an item that is a [ProseWriter]. *)
Definition indentNested (item : ProseWriter) : string :=
  join nl (map (fun line => "  " ++ line) (split_nl (trimEnd (toString item)))).

(** What a list builder collects: strings and nested writers. *)
Inductive ListItem : Type :=
| LString (s : string)
| LWriter (w : ProseWriter).

(** The state behind [createListBuilder()]: the owning writer's mode and
    the [items] array. *)
Record ListBuilder : Type := mkListBuilder {
  ownerSafe : bool;
  items : list ListItem
}.

Definition ListCallback : Type := ListBuilder -> ListBuilder.

Definition createListBuilder (this : ProseWriter) : ListBuilder :=
  mkListBuilder (safeMode this) [].

Definition getItems (l : ListBuilder) : list ListItem := items l.

Definition pushItem (i : ListItem) (l : ListBuilder) : ListBuilder :=
  mkListBuilder (ownerSafe l) (items l ++ [i])%list.

(** One list in two call shapes: a builder callback or the items. *)
Inductive ListArgs (A : Type) : Type :=
| WithBuilder (builder : ListCallback)
| WithItems (args : list A).
Arguments WithBuilder {A} builder.
Arguments WithItems {A} args.

Definition builtItem (bullet : string) (item : ListItem) : string :=
  match item with
  | LWriter w => indentNested w
  | LString s => bullet ++ s
  end.

Definition flatItem (safe : bool) (bullet : string) (item : ContentValue)
  : string :=
  match item with
  | VWriter w => indentNested w
  | _ => bullet ++ escapeUntrusted safe item TrimNone
  end.

Definition unorderedList (args : ListArgs ContentValue) (this : ProseWriter)
  : ProseWriter :=
  match args with
  | WithBuilder f =>
      let items := getItems (f (createListBuilder this)) in
      let listContent := join nl (map (builtItem "- ") items) in
      pushPadded (listContent ++ nl ++ nl) this
  | WithItems items =>
      let listContent := join nl (map (flatItem (safeMode this) "- ") items) in
      pushPadded (listContent ++ nl ++ nl) this
  end.

(** [list], the alias of [unorderedList]. *)
Definition list_ := unorderedList.

(** [items.map(...)] with the counter [index] that only scalar items
    advance. *)
Fixpoint numberBuilt (index : nat) (items : list ListItem) : list string :=
  match items with
  | [] => []
  | LWriter w :: rest => indentNested w :: numberBuilt index rest
  | LString s :: rest =>
      (decimal index ++ ". " ++ s) :: numberBuilt (S index) rest
  end.

Fixpoint numberFlat (safe : bool) (index : nat) (items : list ContentValue)
  : list string :=
  match items with
  | [] => []
  | VWriter w :: rest => indentNested w :: numberFlat safe index rest
  | item :: rest =>
      (decimal index ++ ". " ++ escapeUntrusted safe item TrimNone)
        :: numberFlat safe (S index) rest
  end.

Definition orderedList (args : ListArgs ContentValue) (this : ProseWriter)
  : ProseWriter :=
  match args with
  | WithBuilder f =>
      let items := getItems (f (createListBuilder this)) in
      let listContent := join nl (numberBuilt 1 items) in
      pushPadded (listContent ++ nl ++ nl) this
  | WithItems items =>
      let listContent := join nl (numberFlat (safeMode this) 1 items) in
      pushPadded (listContent ++ nl ++ nl) this
  end.

(** A flat task: a value, or a [[value, checked]] pair. *)
Inductive TaskArg : Type :=
| TaskValue (content : ContentValue)
| TaskPair (content : ContentValue) (checked : bool).

Definition taskText (this : ProseWriter) (arg : TaskArg) : string :=
  match arg with
  | TaskPair content checked =>
      let checkbox := if checked then "[x] " else "[ ] " in
      checkbox ++ trimEnd (toString (write [content] (createChildWriter this)))
  | TaskValue content =>
      "[ ] " ++ trimEnd (toString (write [content] (createChildWriter this)))
  end.

Definition tasks (args : ListArgs TaskArg) (this : ProseWriter) : ProseWriter :=
  match args with
  | WithBuilder f =>
      let items := getItems (f (createListBuilder this)) in
      let listContent := join nl (map (builtItem "- ") items) in
      pushPadded (listContent ++ nl ++ nl) this
  | WithItems args =>
      let items := map (taskText this) args in
      let listContent := join nl (map (fun item => "- " ++ item) items) in
      pushPadded (listContent ++ nl ++ nl) this
  end.

Inductive CalloutType : Type := NOTE | TIP | IMPORTANT | WARNING | CAUTION.

Definition calloutName (type : CalloutType) : string :=
  match type with
  | NOTE => "NOTE"
  | TIP => "TIP"
  | IMPORTANT => "IMPORTANT"
  | WARNING => "WARNING"
  | CAUTION => "CAUTION"
  end.

Definition callout (type : CalloutType) (content : ContentValue + Builder)
  (this : ProseWriter) : ProseWriter :=
  let contentString :=
    match content with
    | inr builder => trimEnd (toString (builder (createChildWriter this)))
    | inl c => escapeUntrusted (safeMode this) c TrimNone
    end in
  let lines := split_nl contentString in
  let alertLines := ("[!" ++ calloutName type ++ "]") :: lines in
  let alertContent := join nl (map (fun line => "> " ++ line) alertLines) in
  pushPadded (alertContent ++ nl ++ nl) this.

Definition heading (level : nat) (content : list ContentValue)
  (this : ProseWriter) : ProseWriter :=
  let hashes := repeat "#" level in
  let joined :=
    join " " (map (fun c => escapeUntrusted (safeMode this) c TrimNone) content) in
  pushPadded (hashes ++ " " ++ joined ++ nl ++ nl) this.

Definition blockquote (lines : list ContentValue) (this : ProseWriter)
  : ProseWriter :=
  let quotedLines :=
    join (nl ++ ">" ++ nl)
      (map (fun line => "> " ++ line)
         (map (fun c => escapeUntrusted (safeMode this) c TrimNone) lines)) in
  pushPadded (quotedLines ++ nl ++ nl) this.

Definition codeblock (language : string) (content : string + Builder)
  (this : ProseWriter) : ProseWriter :=
  let code :=
    match content with
    | inr builder => trim (toString (builder (newWriter false)))
    | inl s => s
    end in
  pushPadded ("```" ++ language ++ nl ++ code ++ nl ++ "```" ++ nl ++ nl) this.

Definition separator (this : ProseWriter) : ProseWriter :=
  pushPadded ("---" ++ nl ++ nl) this.

Definition append (writer : ProseWriter) (this : ProseWriter) : ProseWriter :=
  let content := toString writer in
  if Nat.ltb 0 (String.length content) then
    let (p, this') := padding this in push (p ++ content) this'
  else this.

Definition when (condition : bool) (builder : Builder) (this : ProseWriter)
  : ProseWriter :=
  if condition then builder this else this.

Definition with_ (builder : Builder) (this : ProseWriter) : ProseWriter :=
  builder this.

Definition each {T : Type} (elements : list T)
  (builder : T -> nat -> Builder) (this : ProseWriter) : ProseWriter :=
  snd (fold_left
         (fun acc item => (S (fst acc), builder item (fst acc) (snd acc)))
         elements (0, this)).

Definition tag (name : string) (content : ContentValue + Builder)
  (this : ProseWriter) : ProseWriter :=
  let contentString :=
    match content with
    | inr builder => toString (builder (createChildWriter this))
    | inl c => escapeUntrusted (safeMode this) c TrimNone
    end in
  pushPadded
    ("<" ++ name ++ ">" ++ nl ++ trimEnd contentString ++ nl
       ++ "</" ++ name ++ ">" ++ nl) this.

(** The inline appenders [bold], [italic], [strike], [code], [link] and
    [image] of the writer. *)
Module Append.
Definition code (content : ContentValue) (this : ProseWriter) : ProseWriter :=
  pushPadded (jsString (Enhanced.code this content) ++ nl) this.
Definition bold (content : ContentValue) (this : ProseWriter) : ProseWriter :=
  pushPadded (jsString (Enhanced.bold this content) ++ nl) this.
Definition italic (content : ContentValue) (this : ProseWriter) : ProseWriter :=
  pushPadded (jsString (Enhanced.italic this content) ++ nl) this.
Definition strike (content : ContentValue) (this : ProseWriter) : ProseWriter :=
  pushPadded (jsString (Enhanced.strike this content) ++ nl) this.
Definition link (text : ContentValue) (url : string) (this : ProseWriter)
  : ProseWriter :=
  pushPadded (jsString (Enhanced.link this text url) ++ nl) this.
Definition image (alt : ContentValue) (url : string) (this : ProseWriter)
  : ProseWriter :=
  pushPadded (jsString (Enhanced.image this alt url) ++ nl) this.
End Append.

Definition section (name : string) (builder : Builder) (level : nat)
  (this : ProseWriter) : ProseWriter :=
  let sectionWriter := builder (createChildWriter this) in
  let hashes := repeat "#" level in
  let title := if safeMode this then escapeMarkdownText name else name in
  pushPadded (hashes ++ " " ++ title ++ nl ++ nl ++ toString sectionWriter) this.

Definition clone (this : ProseWriter) : ProseWriter :=
  mkWriter (parts this) false (safeMode this).

(** [table] with positional rows. *)
Definition table (headers : list string) (rows : list (list ContentValue))
  (this : ProseWriter) : ProseWriter :=
  let safeHeaders :=
    if safeMode this then map escapeMarkdownText headers else headers in
  let headerRow := "| " ++ join " | " safeHeaders ++ " |" in
  let separatorRow := "| " ++ join " | " (map (fun _ => "---") headers) ++ " |" in
  let dataRows :=
    join nl
      (map (fun row =>
              let values :=
                map (fun val =>
                       let text := jsString val in
                       if safeMode this then escapeMarkdownText text else text)
                    row in
              "| " ++ join " | " values ++ " |")
           rows) in
  pushPadded (headerRow ++ nl ++ separatorRow ++ nl ++ dataRows ++ nl ++ nl) this.

(** [definitions], over the entries of the object in enumeration order. *)
Definition definitions (obj : list (string * string)) (this : ProseWriter)
  : ProseWriter :=
  let entries :=
    join nl
      (map (fun kv =>
              if safeMode this then
                jsString (safeBold (VString (fst kv))) ++ ": "
                  ++ escapeMarkdownText (snd kv)
              else "**" ++ fst kv ++ "**: " ++ snd kv)
           obj) in
  pushPadded (entries ++ nl ++ nl) this.

Definition comment (content : string) (this : ProseWriter) : ProseWriter :=
  pushPadded ("<!-- " ++ content ++ " -->" ++ nl ++ nl) this.

Definition delimit (open close : string) (content : ContentValue)
  (this : ProseWriter) : ProseWriter :=
  pushPadded (open ++ nl ++ jsString content ++ nl ++ close ++ nl) this.

(** [buildWrite(safeMode)(...content)]: [write] and [write.safe]. *)
Definition buildWrite (safe : bool) (content : list ContentValue) : ProseWriter :=
  write content (newWriter safe).

(* ----------------------------------------------------------------- *)
(** *** The methods of the list builder *)

Module LB.

Definition child (l : ListBuilder) : ProseWriter := newWriter (ownerSafe l).

Definition item (content : list ContentValue) (l : ListBuilder) : ListBuilder :=
  pushItem (LString (trimEnd (toString (write content (child l))))) l.

Definition task (checked : bool) (content : list ContentValue)
  (l : ListBuilder) : ListBuilder :=
  let checkbox := if checked then "[x] " else "[ ] " in
  let text := trimEnd (toString (write content (child l))) in
  pushItem (LString (checkbox ++ text)) l.

Definition todo (content : list ContentValue) := task false content.
Definition done (content : list ContentValue) := task true content.

Definition unorderedList (args : ListArgs ContentValue) (l : ListBuilder)
  : ListBuilder :=
  pushItem (LWriter (unorderedList args (child l))) l.

Definition list_ (args : ListArgs ContentValue) (l : ListBuilder)
  : ListBuilder :=
  pushItem (LWriter (list_ args (child l))) l.

Definition orderedList (args : ListArgs ContentValue) (l : ListBuilder)
  : ListBuilder :=
  pushItem (LWriter (orderedList args (child l))) l.

Definition comment (content : string) (l : ListBuilder) : ListBuilder :=
  pushItem (LWriter (comment content (child l))) l.

Definition bold (l : ListBuilder) := if ownerSafe l then safeBold else bold.
Definition italic (l : ListBuilder) := if ownerSafe l then safeItalic else italic.
Definition code (l : ListBuilder) := if ownerSafe l then safeInlineCode else code.
Definition strike (l : ListBuilder) := if ownerSafe l then safeStrike else strike.
Definition link (l : ListBuilder) := if ownerSafe l then safeLink else link.
Definition image (l : ListBuilder) := if ownerSafe l then safeImage else image.

End LB.

(* ================================================================= *)
(** ** Structured output and its validation *)

Inductive OutputFormat : Type := Json | Yaml.

Definition formatName (format : OutputFormat) : string :=
  match format with Json => "json" | Yaml => "yaml" end.

Definition formatUpper (format : OutputFormat) : string :=
  match format with Json => "JSON" | Yaml => "YAML" end.

Record ValidationIssue : Type := mkIssue {
  message : string;
  path : option string
}.

Record ValidationResult : Type := mkResult {
  valid : bool;
  issues : option (list ValidationIssue)
}.

(** [issues.map((issue, index) => ...)], [index] counted from [start]. *)
Fixpoint numberIssues (start : nat) (l : list ValidationIssue) : list string :=
  match l with
  | [] => []
  | issue :: rest =>
      let path :=
        match path issue with
        | Some p => if String.eqb p "" then "" else p ++ ": "
        | None => ""
        end in
      (decimal (start + 1) ++ ". " ++ path ++ message issue)
        :: numberIssues (S start) rest
  end.

Definition formatValidationIssues (l : list ValidationIssue) : string :=
  if Nat.eqb (List.length l) 0 then "No validation issues were provided."
  else join nl (numberIssues 0 l).

(** [class ValidationError extends Error]. *)
Record ValidationError : Type := mkValidationError {
  errorMessage : string;
  errorFormat : OutputFormat;
  errorIssues : list ValidationIssue
}.

Definition newValidationError (format : OutputFormat)
  (l : list ValidationIssue) (label : option string) : ValidationError :=
  let title :=
    match label with
    | Some t => t
    | None => formatUpper format ++ " validation failed"
    end in
  mkValidationError (title ++ nl ++ formatValidationIssues l) format l.

(** What a [catch] clause receives: an [Error] with its message, or
    anything else. *)
Inductive Thrown : Type :=
| ThrownError (msg : string)
| ThrownOther.

(** A call of [json] or [yaml] returns the writer or throws; either way
    the writer is in the state given. *)
Inductive Outcome : Type :=
| Returned (this : ProseWriter)
| Threw (error : ValidationError) (this : ProseWriter).

Definition writerOf (o : Outcome) : ProseWriter :=
  match o with
  | Returned w => w
  | Threw _ w => w
  end.

Section StructuredOutput.

(** The values of the host language that are not strings, with the
    serializers and the JSON parser, which the library takes as given.
    [Value] holds the data the serializers render: a [BigInt] or a
    circular structure, on which [JSON.stringify] throws, is not among
    them. *)
Variable Value : Type.

(** [data: unknown]. *)
Inductive Data : Type :=
| DString (s : string)
| DValue (v : Value).

Variable JSON_parse : string -> Data + Thrown.
Variable JSON_stringify : Value -> string.
Variable toYamlString : Value -> string.

Definition OutputValidator : Type :=
  OutputFormat -> Data -> option Data -> ValidationResult.

Record ValidationOptions : Type := mkOptions {
  schema : option Data;
  validate : option OutputValidator;
  label : option string;
  parseYaml : option (string -> Data + Thrown)
}.

Definition noOptions : ValidationOptions := mkOptions None None None None.

Definition parseFailure (format : OutputFormat) (what : string) (t : Thrown)
  (options : ValidationOptions) : ValidationError :=
  let msg := match t with ThrownError m => m | ThrownOther => what end in
  newValidationError format
    [mkIssue (what ++ ": " ++ msg) (Some "$")] (label options).

(** [validateOutput]: [None] when it returns, [Some e] when it throws [e]. *)
Definition validateOutput (format : OutputFormat) (data : Data)
  (options : ValidationOptions) : option ValidationError :=
  match validate options with
  | None => None
  | Some validator =>
      let afterJson : Data + ValidationError :=
        match format, data with
        | Json, DString s =>
            match JSON_parse s with
            | inl v => inl v
            | inr t => inr (parseFailure format "Invalid JSON string" t options)
            end
        | _, _ => inl data
        end in
      match afterJson with
      | inr e => Some e
      | inl validationData =>
          let afterYaml : Data + ValidationError :=
            match format, data, parseYaml options with
            | Yaml, DString s, Some parser =>
                match parser s with
                | inl v => inl v
                | inr t =>
                    inr (parseFailure format "Invalid YAML string" t options)
                end
            | _, _, _ => inl validationData
            end in
          match afterYaml with
          | inr e => Some e
          | inl validationData' =>
              let result := validator format validationData' (schema options) in
              if valid result then None
              else
                Some (newValidationError format
                        (match issues result with Some l => l | None => [] end)
                        (label options))
          end
      end
  end.

Definition json (data : Data) (options : ValidationOptions)
  (this : ProseWriter) : Outcome :=
  match validateOutput Json data options with
  | Some e => Threw e this
  | None =>
      let jsonString :=
        match data with DString s => s | DValue v => JSON_stringify v end in
      Returned (codeblock "json" (inl jsonString) this)
  end.

Definition yaml (data : Data) (options : ValidationOptions)
  (this : ProseWriter) : Outcome :=
  match validateOutput Yaml data options with
  | Some e => Threw e this
  | None =>
      let yamlString :=
        match data with DString s => s | DValue v => toYamlString v end in
      Returned (codeblock "yaml" (inl yamlString) this)
  end.

End StructuredOutput.

Arguments DString {Value} s.
Arguments DValue {Value} v.

(* ================================================================= *)
(** ** Derived writers, templates and module-level helpers *)

(** [s.replace(/\n{3,}/g, '\n\n')]; [run] counts the newlines read
    straight before the head of [s]. *)
Fixpoint collapseNewlines (run : nat) (s : string) : string :=
  match s with
  | "" => ""
  | String c s' =>
      if Ascii.eqb c LF then
        if Nat.ltb run 2 then String c (collapseNewlines (S run) s')
        else collapseNewlines (S run) s'
      else String c (collapseNewlines 0 s')
  end.

(** [\w]. *)
Definition isWordChar (c : ascii) : bool :=
  isLowerAz c || isUpperAz c || isDigit c || isChar "_" c.

(** A match of [/\{\{(\w+)\}\}/] at the head of [s]: the key. *)
Definition placeholderAt (s : string) : option string :=
  if startsWith s "{{" then
    let (key, after) :=
      spanClass isWordChar (substring 2 (String.length s - 2) s) in
    if Nat.leb 1 (String.length key) && startsWith after "}}" then Some key
    else None
  else None.

(** The object [variables] of [fill] as a property read sees it: its own
    properties, and the properties its prototype chain gives.  For an
    object literal these are the properties of [Object.prototype]
    ([constructor], [toString], [valueOf], ...); an object made by
    [Object.create(null)] inherits none.  An inherited value is kept as
    the text [replace] makes of what its callback returns. *)
Record Variables : Type := mkVariables {
  own : string -> option string;
  inherited : string -> option string
}.

(** [variables[key]]: the own property, and the inherited one when there
    is no own one; [None] is [undefined]. *)
Definition getProperty (variables : Variables) (key : string)
  : option string :=
  match own variables key with
  | Some value => Some value
  | None => inherited variables key
  end.

(** [content.replace(/\{\{(\w+)\}\}/g, (match, key) => variables[key] ?? match)];
    [skip] is what is left of a match that has been replaced. *)
Fixpoint replacePlaceholders (variables : Variables)
  (skip : nat) (s : string) : string :=
  match s with
  | "" => ""
  | String c s' =>
      match skip with
      | S k => replacePlaceholders variables k s'
      | O =>
          match placeholderAt s with
          | Some key =>
              let matched := "{{" ++ key ++ "}}" in
              match getProperty variables key with
              | Some value => value
              | None => matched
              end ++ replacePlaceholders variables (String.length key + 3) s'
          | None => String c (replacePlaceholders variables 0 s')
          end
      end
  end.

(** The methods that return a new writer, and the static helpers.
    [fill] and [fromTemplate] are those of src/src/prose-writer.ts, where
    a writer has no safe mode. *)
Module Writer.

Definition compact (this : ProseWriter) : ProseWriter :=
  seededWriter (collapseNewlines 0 (toString this)) (safeMode this).

Definition trim (this : ProseWriter) : ProseWriter :=
  seededWriter (JS.trim (toString this)) (safeMode this).

Definition fill (variables : Variables) (this : ProseWriter)
  : ProseWriter :=
  seededWriter (replacePlaceholders variables 0 (toString this)) false.

(** [tokens(counter?)]: [Math.ceil(content.length / 4)] without a counter. *)
Definition tokens (counter : option (string -> nat)) (this : ProseWriter) : nat :=
  let content := toString this in
  match counter with
  | Some count => count content
  | None => (String.length content + 3) / 4
  end.

Definition empty : ProseWriter := newWriter false.

Definition join (writers : list ProseWriter) : ProseWriter :=
  fold_left (fun result writer => push (toString writer) result)
    writers (newWriter false).

Definition fromTemplate (template : string) : ProseWriter :=
  seededWriter template false.

End Writer.

Section SchemaEmbedding.

Variable Value : Type.
Variable JSON_parse : string -> Data Value + Thrown.
Variable JSON_stringify : Value -> string.
Variable toYamlString : Value -> string.

(** [(schema, data) => ValidationResult]. *)
Definition JsonSchemaAdapter : Type :=
  Data Value -> Data Value -> ValidationResult.

Definition createJsonSchemaValidator (adapter : JsonSchemaAdapter)
  : OutputValidator Value :=
  fun format data schema =>
    match format, schema with
    | Json, Some sch => adapter sch data
    | _, _ => mkResult true None
    end.

Definition createYamlParserAdapter (parser : string -> Data Value + Thrown)
  : string -> Data Value + Thrown :=
  fun input => parser input.

(** [SchemaEmbedOptions]; an absent [format] is [json], an absent [level]
    is [2]. *)
Record SchemaEmbedOptions : Type := mkSchemaOptions {
  embedFormat : option OutputFormat;
  embedTitle : option string;
  embedLevel : option nat;
  embedTag : option string
}.

(** A string option that is present and not empty. *)
Definition truthy (o : option string) : option string :=
  match o with
  | Some s => if String.eqb s "" then None else Some s
  | None => None
  end.

Definition schema_ (schemaValue : Data Value) (options : SchemaEmbedOptions)
  (this : ProseWriter) : Outcome :=
  let format := match embedFormat options with Some f => f | None => Json end in
  let level := match embedLevel options with Some l => l | None => 2 end in
  let this1 :=
    match truthy (embedTitle options) with
    | Some title => heading level [VString title] this
    | None => this
    end in
  let emit :=
    match format with
    | Json => json Value JSON_parse JSON_stringify
    | Yaml => yaml Value JSON_parse toYamlString
    end in
  match truthy (embedTag options) with
  | Some name =>
      match emit schemaValue (noOptions Value) (createChildWriter this1) with
      | Threw e _ => Threw e this1
      | Returned schemaWriter =>
          Returned (tag name (inl (VWriter schemaWriter)) this1)
      end
  | None => emit schemaValue (noOptions Value) this1
  end.

End SchemaEmbedding.

(** One call of a block or inline appender, with its arguments. *)
Inductive Block : Type :=
| BUnorderedList (args : ListArgs ContentValue)
| BOrderedList (args : ListArgs ContentValue)
| BTasks (args : ListArgs TaskArg)
| BCallout (type : CalloutType) (content : ContentValue + Builder)
| BHeading (level : nat) (content : list ContentValue)
| BBlockquote (lines : list ContentValue)
| BCodeblock (language : string) (content : string + Builder)
| BSeparator
| BTag (name : string) (content : ContentValue + Builder)
| BSection (name : string) (builder : Builder) (level : nat)
| BTable (headers : list string) (rows : list (list ContentValue))
| BDefinitions (obj : list (string * string))
| BComment (content : string)
| BDelimit (open close : string) (content : ContentValue)
| BCode (content : ContentValue)
| BBold (content : ContentValue)
| BItalic (content : ContentValue)
| BStrike (content : ContentValue)
| BLink (text : ContentValue) (url : string)
| BImage (alt : ContentValue) (url : string).

Definition appendBlock (b : Block) (this : ProseWriter) : ProseWriter :=
  match b with
  | BUnorderedList args => unorderedList args this
  | BOrderedList args => orderedList args this
  | BTasks args => tasks args this
  | BCallout type content => callout type content this
  | BHeading level content => heading level content this
  | BBlockquote lines => blockquote lines this
  | BCodeblock language content => codeblock language content this
  | BSeparator => separator this
  | BTag name content => tag name content this
  | BSection name builder level => section name builder level this
  | BTable headers rows => table headers rows this
  | BDefinitions obj => definitions obj this
  | BComment content => comment content this
  | BDelimit open close content => delimit open close content this
  | BCode content => Append.code content this
  | BBold content => Append.bold content this
  | BItalic content => Append.italic content this
  | BStrike content => Append.strike content this
  | BLink text url => Append.link text url this
  | BImage alt url => Append.image alt url this
  end.

(* ================================================================= *)
(** ** Vocabulary of the statements *)

(** [s] ends with [suf]. *)
Definition EndsWith (s suf : string) : Prop := exists pre, s = pre ++ suf.

(** [s] ends with one newline and no more. *)
Definition EndsWithOneNewline (s : string) : Prop :=
  exists pre, s = pre ++ nl /\ ~ EndsWith pre nl.

(** The writer as the [padding] getter leaves it. *)
Definition flagCleared (this : ProseWriter) : ProseWriter :=
  mkWriter (parts this) false (safeMode this).

(** The writer behind a flat item or a collected item, if it is one. *)
Definition valueWriter (item : ContentValue) : option ProseWriter :=
  match item with VWriter w => Some w | _ => None end.

Definition itemWriter (item : ListItem) : option ProseWriter :=
  match item with LWriter w => Some w | LString _ => None end.

(** [s] holds no newline. *)
Fixpoint noLF (s : string) : bool :=
  match s with
  | "" => true
  | String c s' => negb (Ascii.eqb c LF) && noLF s'
  end.

(** Every line of [text], indented by two spaces. *)
Definition indentedLines (text : string) : list string :=
  map (fun line => "  " ++ line) (split_nl text).

(** [result] is [this] followed by one list block whose entries, joined by
    newlines, stand one for one for [items], and every entry that stands
    for a nested writer has as its lines the lines of that writer's
    right-trimmed text, each behind two spaces. *)
Definition RendersNested {A : Type} (writerOf' : A -> option ProseWriter)
  (items : list A) (this result : ProseWriter) : Prop :=
  exists rendered : list string,
    List.length rendered = List.length items /\
    toString result
      = toString this ++ fst (padding this) ++ join nl rendered ++ nl ++ nl /\
    forall i item w,
      nth_error items i = Some item -> writerOf' item = Some w ->
      exists r, nth_error rendered i = Some r /\
                split_nl r = indentedLines (trimEnd (toString w)).

(** Items that take a number in an ordered list, and how many of them
    stand before position [i]. *)
Definition isScalar (item : ContentValue) : bool :=
  match item with VWriter _ => false | _ => true end.

Definition isCollectedString (item : ListItem) : bool :=
  match item with LString _ => true | LWriter _ => false end.

Definition countBefore {A : Type} (counts : A -> bool) (i : nat) (l : list A)
  : nat :=
  List.length (filter counts (firstn i l)).

Section ValidationVocabulary.

Variable Value : Type.
Variable JSON_parse : string -> Data Value + Thrown.
Variable options : ValidationOptions Value.

(** The data handed to the validator: a JSON string parsed, a YAML string
    parsed by the supplied parser when there is one, anything else as it
    is. *)
Inductive Checked : OutputFormat -> Data Value -> Data Value -> Prop :=
| CheckedJsonString s v :
    JSON_parse s = inl v -> Checked Json (DString s) v
| CheckedYamlString s parser v :
    parseYaml Value options = Some parser -> parser s = inl v ->
    Checked Yaml (DString s) v
| CheckedYamlRaw s :
    parseYaml Value options = None -> Checked Yaml (DString s) (DString s)
| CheckedValue format v :
    Checked format (DValue v) (DValue v).

(** Validation fails: a JSON string input fails to parse, a YAML string
    input makes the supplied parser throw, or the validator reports
    [valid: false]. *)
Inductive ValidationFails : OutputFormat -> Data Value -> Prop :=
| JsonDoesNotParse s t :
    JSON_parse s = inr t -> ValidationFails Json (DString s)
| YamlParserThrows s parser t :
    parseYaml Value options = Some parser -> parser s = inr t ->
    ValidationFails Yaml (DString s)
| ValidatorRejects format data validator checked :
    validate Value options = Some validator ->
    Checked format data checked ->
    valid (validator format checked (schema Value options)) = false ->
    ValidationFails format data.

End ValidationVocabulary.

(** A URI scheme name in lower case: a letter, then letters, digits,
    [+], [.] or [-]; and a lower-cased URL that starts with the scheme
    [sch] and a colon. *)
Fixpoint allChars (cls : ascii -> bool) (s : string) : bool :=
  match s with
  | "" => true
  | String c s' => cls c && allChars cls s'
  end.

Definition isSchemeName (sch : string) : bool :=
  match sch with
  | "" => false
  | String c cs => isLowerAz c && allChars isSchemeChar cs
  end.

Definition HasScheme (lower sch : string) : Prop :=
  isSchemeName sch = true /\ exists rest, lower = sch ++ ":" ++ rest.

(** The outputs of the safe inline formatters on a plain string [s]. *)
Inductive SafeFormatted (s : string) : ContentValue -> Prop :=
| FormattedBold : SafeFormatted s (safeBold (VString s))
| FormattedItalic : SafeFormatted s (safeItalic (VString s))
| FormattedStrike : SafeFormatted s (safeStrike (VString s))
| FormattedCode : SafeFormatted s (safeInlineCode (VString s))
| FormattedLink url : SafeFormatted s (safeLink (VString s) url)
| FormattedImage url : SafeFormatted s (safeImage (VString s) url).

Definition AllSafeFormatted (content : list ContentValue) : Prop :=
  Forall (fun c => exists s, SafeFormatted s c) content.

(** [sub] occurs in [s]. *)
Definition Occurs (sub s : string) : Prop :=
  exists before after, s = before ++ sub ++ after.

(** [sub] occurs in [s], decided from the left. *)
Fixpoint occursb (sub s : string) : bool :=
  String.prefix sub s
  || match s with
     | "" => false
     | String _ s' => occursb sub s'
     end.

(** The text a writer seeded with [content] renders: [content] closed by a
    newline when it has none. *)
Definition withNewline (content : string) : string :=
  if endsWith content nl then content else content ++ nl.

(** Reading [s] with [run] newlines straight before it, no third newline
    in a row is met. *)
Fixpoint noThirdNewline (run : nat) (s : string) : bool :=
  match s with
  | "" => true
  | String c s' =>
      if Ascii.eqb c LF then Nat.ltb run 2 && noThirdNewline (S run) s'
      else noThirdNewline 0 s'
  end.

(** [s] without its first [k] characters. *)
Fixpoint dropChars (k : nat) (s : string) : string :=
  match k, s with
  | O, _ => s
  | S k', "" => ""
  | S k', String _ s' => dropChars k' s'
  end.

(** Reading [s] from the left, a backslash takes the character after it
    along, which is one of [taken], and every other character is outside
    [special]: no character of [special] stands unescaped. *)
Fixpoint escaped (taken special : ascii -> bool) (s : string) : bool :=
  match s with
  | "" => true
  | String c s' =>
      if Ascii.eqb c "\" then
        match s' with
        | "" => false
        | String d s'' => taken d && escaped taken special s''
        end
      else negb (special c) && escaped taken special s'
  end.

(** The punctuation [escapeMarkdownText] puts a backslash before. *)
Definition isMarkdownSpecial (c : ascii) : bool := inClass "\`*_~()|![]" c.

(** Neither [<] nor [>]. *)
Definition notAngle (c : ascii) : bool := negb (inClass "<>" c).

(** Characters of ordinary prose: no markup punctuation, no block marker,
    no digit. *)
Definition isPlainChar (c : ascii) : bool :=
  negb (inClass "&<>\`*_~()|![]#-+" c) && negb (isDigit c).

(** The characters of a sanitized link destination. *)
Definition isDestinationChar (c : ascii) : bool :=
  uriKeep c || isChar "%" c || isChar "\" c.

Section ValidationPassing.

Variable Value : Type.
Variable JSON_parse : string -> Data Value + Thrown.
Variable options : ValidationOptions Value.

(** Validation passes: there is no validator, or the validator accepts the
    data handed to it. *)
Inductive ValidationPasses : OutputFormat -> Data Value -> Prop :=
| NoValidator format data :
    validate Value options = None -> ValidationPasses format data
| ValidatorAccepts format data validator checked :
    validate Value options = Some validator ->
    Checked Value JSON_parse options format data checked ->
    valid (validator format checked (schema Value options)) = true ->
    ValidationPasses format data.

End ValidationPassing.

(** A collected item as an item of a flat call. *)
Definition itemValue (item : ListItem) : ContentValue :=
  match item with
  | LString s => VString s
  | LWriter w => VWriter w
  end.

(** The call of the list builder that stands for a flat task. *)
Definition taskCall (arg : TaskArg) : ListCallback :=
  match arg with
  | TaskValue content => LB.todo [content]
  | TaskPair content checked => LB.task checked [content]
  end.

(** The builder called once for every element in order, with the writer
    the call before has left and the position of the element, counted
    from [start]. *)
Fixpoint eachFrom {T : Type} (builder : T -> nat -> Builder) (start : nat)
  (elements : list T) (this : ProseWriter) : ProseWriter :=
  match elements with
  | [] => this
  | x :: rest => eachFrom builder (S start) rest (builder x start this)
  end.

(** The path prefix of one entry of a validation message. *)
Definition issuePrefix (issue : ValidationIssue) : string :=
  match path issue with
  | Some p => if String.eqb p "" then "" else p ++ ": "
  | None => ""
  end.

(* ================================================================= *)
(** ** Strings: basic facts *)

Lemma append_nil_r (s : string) : s ++ "" = s.
Proof. induction s as [|c s IH]; simpl; congruence. Qed.

Lemma append_assoc (a b c : string) : (a ++ b) ++ c = a ++ (b ++ c).
Proof. induction a as [|x a IH]; simpl; congruence. Qed.

Lemma length_append (a b : string) :
  String.length (a ++ b) = String.length a + String.length b.
Proof. induction a as [|x a IH]; simpl; congruence. Qed.

Lemma append_inv_head (a b c : string) : a ++ b = a ++ c -> b = c.
Proof. induction a as [|x a IH]; simpl; intros H; [assumption|]. injection H. auto. Qed.

Lemma substring_whole (s : string) : substring 0 (String.length s) s = s.
Proof. induction s as [|c s IH]; simpl; congruence. Qed.

Lemma substring_skip (pre s : string) (n m : nat) :
  substring (String.length pre + n) m (pre ++ s) = substring n m s.
Proof. induction pre as [|c pre IH]; simpl; auto. Qed.

Lemma substring_cut (k : nat) :
  forall s, k <= String.length s ->
    s = substring 0 k s ++ substring k (String.length s - k) s.
Proof.
  induction k as [|k IH]; intros s Hk.
  - rewrite Nat.sub_0_r, substring_whole. destruct s; reflexivity.
  - destruct s as [|c s]; simpl in Hk; [lia|].
    simpl. f_equal. apply IH. lia.
Qed.

Lemma endsWith_spec (s suf : string) :
  endsWith s suf = true <-> EndsWith s suf.
Proof.
  unfold endsWith, EndsWith. rewrite andb_true_iff, Nat.leb_le, String.eqb_eq.
  split.
  - intros [Hle E].
    exists (substring 0 (String.length s - String.length suf) s).
    pose proof (substring_cut (String.length s - String.length suf) s) as H.
    replace (String.length s - (String.length s - String.length suf))
      with (String.length suf) in H by lia.
    rewrite E in H. apply H. lia.
  - intros [pre ->]. rewrite length_append. split; [lia|].
    replace (String.length pre + String.length suf - String.length suf)
      with (String.length pre + 0) by lia.
    rewrite substring_skip. apply substring_whole.
Qed.

Lemma endsWith_false (s suf : string) :
  endsWith s suf = false <-> ~ EndsWith s suf.
Proof.
  rewrite <- endsWith_spec. destruct (endsWith s suf); split; congruence.
Qed.

Lemma last_snoc {A : Type} (l : list A) (x d : A) : List.last (l ++ [x])%list d = x.
Proof.
  induction l as [|y l IH]; simpl; [reflexivity|].
  destruct (l ++ [x])%list eqn:E; [destruct l; discriminate|exact IH].
Qed.

Lemma EndsWith_two_newlines (s : string) :
  EndsWith s (nl ++ nl) <-> exists pre, s = pre ++ nl /\ EndsWith pre nl.
Proof.
  split.
  - intros [pre ->]. exists (pre ++ nl). split.
    + now rewrite append_assoc.
    + now exists pre.
  - intros [pre [-> [pre' ->]]]. exists pre'. now rewrite append_assoc.
Qed.

(* ================================================================= *)
(** ** The padding engine *)

Lemma not_EndsWith_nl_a : ~ EndsWith "a" nl.
Proof.
  intros [pre H]. destruct pre as [|c pre]; [discriminate|].
  injection H as _ H. destruct pre; discriminate.
Qed.

Lemma padding_snd (this : ProseWriter) : snd (padding this) = flagCleared this.
Proof.
  destruct this as [ps skip safe]. unfold padding, flagCleared. simpl.
  destruct skip; simpl; [reflexivity|].
  repeat match goal with
         | |- context [if ?b then _ else _] => destruct b
         end; reflexivity.
Qed.

Lemma padding_suppressed (this : ProseWriter) :
  skipNextPadding this = true \/ parts this = [] -> fst (padding this) = "".
Proof.
  unfold padding. intros [-> | ->]; [reflexivity|]. simpl.
  now rewrite orb_true_r.
Qed.

(** With fragments and no pending flag, the prefix is decided by the last
    fragment alone. *)
Lemma padding_last (this : ProseWriter) (before : list string)
  (lastPart : string) :
  skipNextPadding this = false ->
  parts this = (before ++ [lastPart])%list ->
  fst (padding this)
  = if endsWith lastPart (nl ++ nl) then ""
    else if endsWith lastPart nl then nl else nl ++ nl.
Proof.
  intros Hskip Hparts. unfold padding. rewrite Hskip, Hparts.
  rewrite length_app, Nat.add_comm, last_snoc. simpl.
  repeat match goal with
         | |- context [if ?b then _ else _] => destruct b
         end; reflexivity.
Qed.

Lemma append_nl_inv (a b : string) : a ++ nl = b ++ nl -> a = b.
Proof.
  revert b. induction a as [|c a IH]; intros [|d b] E; simpl in E.
  - reflexivity.
  - injection E as _ E. destruct b; discriminate.
  - injection E as _ E. destruct a; discriminate.
  - injection E as -> E. f_equal. now apply IH.
Qed.

Lemma one_newline_tests (s : string) :
  EndsWithOneNewline s ->
  endsWith s (nl ++ nl) = false /\ endsWith s nl = true.
Proof.
  intros [pre [-> Hpre]]. split.
  - apply endsWith_false. intros H. apply EndsWith_two_newlines in H.
    destruct H as [pre' [E H]]. apply append_nl_inv in E. now subst pre'.
  - apply endsWith_spec. now exists pre.
Qed.

Lemma no_newline_tests (s : string) :
  ~ EndsWith s nl -> endsWith s (nl ++ nl) = false /\ endsWith s nl = false.
Proof.
  intros H. split; apply endsWith_false; [|assumption].
  intros H2. apply H. apply EndsWith_two_newlines in H2.
  destruct H2 as [pre [-> _]]. now exists pre.
Qed.

(** C1.  The prefix the [padding] getter computes before an append: the
    getter always leaves the one-shot flag cleared; the prefix is empty
    when the flag was set or nothing has been appended; otherwise it is
    empty when the last fragment ends with two newlines, one newline when
    the last fragment ends with exactly one newline, and two newlines when
    the last fragment ends with no newline. *)
Theorem padding_prefix_rule (this : ProseWriter) :
  snd (padding this) = flagCleared this /\
  ((skipNextPadding this = true \/ parts this = []) ->
     fst (padding this) = "") /\
  (forall before lastPart,
      skipNextPadding this = false ->
      parts this = (before ++ [lastPart])%list ->
      (EndsWith lastPart (nl ++ nl) -> fst (padding this) = "") /\
      (EndsWithOneNewline lastPart -> fst (padding this) = nl) /\
      (~ EndsWith lastPart nl -> fst (padding this) = nl ++ nl)).
Proof.
  split; [apply padding_snd|]. split; [apply padding_suppressed|].
  intros before lastPart Hskip Hparts.
  rewrite (padding_last this before lastPart Hskip Hparts).
  split; [|split].
  - intros H. apply endsWith_spec in H. now rewrite H.
  - intros H. destruct (one_newline_tests lastPart H) as [H2 H1].
    now rewrite H2, H1.
  - intros H. destruct (no_newline_tests lastPart H) as [H2 H1].
    now rewrite H2, H1.
Qed.

Lemma padding_prefix_rule_witness :
  EndsWithOneNewline ("a" ++ nl) /\
  fst (padding (mkWriter ["a" ++ nl] false false)) = nl.
Proof.
  assert (H : EndsWithOneNewline ("a" ++ nl)).
  { exists "a". split; [reflexivity|exact not_EndsWith_nl_a]. }
  split; [exact H|].
  exact (proj1 (proj2 (proj2 (proj2 (padding_prefix_rule
           (mkWriter ["a" ++ nl] false false))) [] ("a" ++ nl)
           eq_refl eq_refl)) H).
Defined.

(* ================================================================= *)
(** ** Rendering after an append *)

Lemma join_empty_snoc (ps : list string) (s : string) :
  join "" (ps ++ [s])%list = join "" ps ++ s.
Proof.
  unfold join. induction ps as [|p ps IH]; simpl; [reflexivity|].
  destruct ps as [|q ps].
  - simpl. reflexivity.
  - change ((q :: ps) ++ [s])%list with (q :: (ps ++ [s]))%list in *.
    simpl in *. rewrite IH. now rewrite append_assoc.
Qed.

Lemma toString_push (s : string) (this : ProseWriter) :
  toString (push s this) = toString this ++ s.
Proof. unfold toString, push. simpl. apply join_empty_snoc. Qed.

Lemma pushPadded_eq (body : string) (this : ProseWriter) :
  pushPadded body this =
  mkWriter (parts this ++ [(fst (padding this) ++ body)%string])%list false
    (safeMode this).
Proof.
  unfold pushPadded. pose proof (padding_snd this) as H.
  destruct (padding this) as [p this']. simpl in *. subst this'. reflexivity.
Qed.

Lemma toString_pushPadded (body : string) (this : ProseWriter) :
  toString (pushPadded body this) = toString this ++ fst (padding this) ++ body.
Proof.
  rewrite pushPadded_eq. unfold toString. simpl. apply join_empty_snoc.
Qed.

Lemma write_nonempty (content : list ContentValue) (this : ProseWriter) :
  parts this <> [] ->
  write content this =
  pushPadded
    (join " " (map (fun c => escapeUntrusted (safeMode this) c TrimEnd) content)
       ++ nl) this.
Proof.
  intros H. unfold write, pushPadded.
  destruct (parts this) eqn:E; [congruence|]. simpl.
  destruct (padding this). reflexivity.
Qed.

Lemma EndsWith_drop_prefix (a b suf : string) :
  String.length suf <= String.length b -> EndsWith (a ++ b) suf -> EndsWith b suf.
Proof.
  intros Hlen. induction a as [|c a IH]; simpl; [auto|].
  intros [pre E]. destruct pre as [|c' pre]; simpl in E.
  - apply (f_equal String.length) in E. simpl in E.
    rewrite length_append in E. lia.
  - injection E as _ E. apply IH. now exists pre.
Qed.

(** After a fragment [core ++ terminator] whose terminator is one or two
    newlines, the next padded append is separated from [core] by exactly
    two newlines. *)
Lemma paragraph_break_after (core body : string) (one : bool)
  (this : ProseWriter) :
  core <> "" -> ~ EndsWith core nl ->
  toString
    (pushPadded body (pushPadded (core ++ (if one then nl else nl ++ nl)) this))
  = toString this ++ fst (padding this) ++ core ++ nl ++ nl ++ body.
Proof.
  intros Hne Hcore.
  rewrite (toString_pushPadded body), toString_pushPadded.
  rewrite !append_assoc. do 3 f_equal.
  set (part := fst (padding this) ++ core ++ (if one then nl else nl ++ nl)).
  rewrite (padding_last _ (parts this) part);
    [|now rewrite pushPadded_eq|now rewrite pushPadded_eq].
  unfold part. destruct one.
  - assert (H : EndsWithOneNewline (fst (padding this) ++ core ++ nl)).
    { exists (fst (padding this) ++ core). split; [now rewrite append_assoc|].
      intros HE. apply Hcore.
      apply (EndsWith_drop_prefix (fst (padding this))); [|exact HE].
      destruct core; [congruence|simpl; lia]. }
    destruct (one_newline_tests _ H) as [H2 H1]. now rewrite H2, H1.
  - assert (H : endsWith (fst (padding this) ++ core ++ nl ++ nl) (nl ++ nl)
                = true).
    { apply endsWith_spec. exists (fst (padding this) ++ core).
      now rewrite !append_assoc. }
    now rewrite H.
Qed.

(* ================================================================= *)
(** ** [write] without content, and [append] of an empty writer *)

(** C7, as stated, fails.  What [write()] adds to a writer with content is
    not one fixed blank line: after [write('hello')] it adds two newline
    characters, after a heading one, and with [nextLine()] pending one.  A
    later [write('b')] stands three newlines after [write('a')] but four
    newlines after a heading. *)
Lemma write_no_arguments_varies :
  toString (write [] (buildWrite false [VString "hello"]))
    = "hello" ++ nl ++ nl ++ nl /\
  toString (write [] (heading 1 [VString "T"] (newWriter false)))
    = "# T" ++ nl ++ nl ++ nl /\
  toString (write [] (nextLine (buildWrite false [VString "a"])))
    = "a" ++ nl ++ nl /\
  toString (write [VString "b"] (write [] (buildWrite false [VString "a"])))
    = "a" ++ nl ++ nl ++ nl ++ "b" ++ nl /\
  toString
    (write [VString "b"] (write [] (heading 1 [VString "T"] (newWriter false))))
    = "# T" ++ nl ++ nl ++ nl ++ nl ++ "b" ++ nl /\
  ~ (exists blank, forall this,
        parts this <> [] ->
        toString (write [] this) = toString this ++ blank).
Proof.
  do 5 (split; [reflexivity|]).
  intros [blank H].
  pose proof (H (buildWrite false [VString "hello"])) as H1.
  pose proof (H (heading 1 [VString "T"] (newWriter false))) as H2.
  vm_compute in H1, H2.
  assert (E1 : blank = nl ++ nl).
  { assert (E : "hello" ++ nl ++ nl ++ nl = "hello" ++ nl ++ blank)
      by (apply H1; discriminate).
    now inversion E. }
  assert (E2 : blank = nl).
  { assert (E : "# T" ++ nl ++ nl ++ nl = "# T" ++ nl ++ nl ++ blank)
      by (apply H2; discriminate).
    now inversion E. }
  rewrite E1 in E2. discriminate.
Qed.

(** C7, amended.  On a writer with no fragments [write()] and [write('')]
    leave the rendered text empty.  On a writer with fragments [write()]
    appends the padding prefix followed by one newline; after a fragment
    that ends with exactly one newline (and no pending [nextLine]) that is
    two newline characters. *)
Theorem write_no_arguments (this : ProseWriter) :
  (parts this = [] ->
     toString (write [] this) = "" /\ toString (write [VString ""] this) = "") /\
  (parts this <> [] ->
     toString (write [] this) = toString this ++ fst (padding this) ++ nl) /\
  (forall before lastPart,
      skipNextPadding this = false ->
      parts this = (before ++ [lastPart])%list ->
      EndsWithOneNewline lastPart ->
      toString (write [] this) = toString this ++ nl ++ nl).
Proof.
  assert (Hne : parts this <> [] ->
     toString (write [] this) = toString this ++ fst (padding this) ++ nl).
  { intros H. rewrite write_nonempty by assumption.
    now rewrite toString_pushPadded. }
  split; [|split].
  - intros H. unfold write. rewrite H.
    destruct (safeMode this); simpl; unfold toString; rewrite H; split; reflexivity.
  - exact Hne.
  - intros before lastPart Hskip Hparts Hlast.
    rewrite Hne by (rewrite Hparts; destruct before; discriminate).
    rewrite (padding_last this before lastPart Hskip Hparts).
    destruct (one_newline_tests lastPart Hlast) as [H2 H1].
    now rewrite H2, H1.
Qed.

Lemma write_no_arguments_witness :
  toString (write [] (mkWriter ["a" ++ nl] false false))
    = toString (mkWriter ["a" ++ nl] false false) ++ nl ++ nl.
Proof.
  apply (proj2 (proj2 (write_no_arguments (mkWriter ["a" ++ nl] false false)))
           [] ("a" ++ nl) eq_refl eq_refl).
  exists "a". split; [reflexivity|exact not_EndsWith_nl_a].
Defined.

(** C10.  Appending a writer whose rendered text is empty leaves the
    receiver as it was: the same fragments, the same rendered text, and a
    pending [nextLine] flag still pending. *)
Theorem append_empty_writer_unchanged (this other : ProseWriter) :
  toString other = "" ->
  append other this = this /\
  parts (append other this) = parts this /\
  toString (append other this) = toString this /\
  skipNextPadding (append other this) = skipNextPadding this.
Proof.
  intros H. assert (E : append other this = this).
  { unfold append. rewrite H. reflexivity. }
  rewrite E. repeat split.
Qed.

Lemma append_empty_writer_unchanged_witness :
  toString (newWriter true) = "" /\
  skipNextPadding
    (append (newWriter true) (nextLine (buildWrite false [VString "a"]))) = true.
Proof.
  split; [reflexivity|].
  destruct (append_empty_writer_unchanged
              (nextLine (buildWrite false [VString "a"])) (newWriter true)
              eq_refl) as [_ [_ [_ H]]].
  rewrite H. reflexivity.
Defined.

(* ================================================================= *)
(** ** Boundaries between blocks *)

(** C2.  The code at [write('x').table(['A'], []).heading(2, 'T')]: a table
    without rows ends with three newlines, the heading gets an empty
    prefix, and the boundary between the two blocks is three newlines. *)
Theorem table_without_rows_boundary :
  parts (table ["A"] [] (buildWrite false [VString "x"]))
    = ["x" ++ nl; nl ++ "| A |" ++ nl ++ "| --- |" ++ nl ++ nl ++ nl] /\
  fst (padding (table ["A"] [] (buildWrite false [VString "x"]))) = "" /\
  toString
    (heading 2 [VString "T"] (table ["A"] [] (buildWrite false [VString "x"])))
    = "x" ++ nl ++ nl ++ "| A |" ++ nl ++ "| --- |"
        ++ nl ++ nl ++ nl ++ "## T" ++ nl ++ nl.
Proof. repeat split. Qed.

(* ================================================================= *)
(** ** Code blocks built by a callback *)

Lemma trimStart_head (s : string) : headIs isWhiteSpace (trimStart s) = false.
Proof.
  induction s as [|c s IH]; simpl; [reflexivity|].
  destruct (isWhiteSpace c) eqn:E; [exact IH|]. simpl. exact E.
Qed.

Lemma trimEnd_idempotent (s : string) : trimEnd (trimEnd s) = trimEnd s.
Proof.
  induction s as [|c s IH]; simpl; [reflexivity|].
  destruct (isWhiteSpace c && String.eqb (trimEnd s) "") eqn:E; [reflexivity|].
  simpl. rewrite IH, E. reflexivity.
Qed.

Lemma trimEnd_app_nl (x : string) : trimEnd (x ++ nl) = trimEnd x.
Proof.
  induction x as [|c x IH]; [reflexivity|].
  cbn [String.append trimEnd]. now rewrite IH.
Qed.

Lemma trimEnd_trimStart (t : string) :
  trimEnd t = t -> trimEnd (trimStart t) = trimStart t.
Proof.
  induction t as [|c t IH]; simpl; [reflexivity|].
  destruct (isWhiteSpace c) eqn:Ec; simpl.
  - destruct (String.eqb (trimEnd t) ""); [discriminate|].
    intros H. injection H as H. now apply IH.
  - now rewrite Ec.
Qed.

Lemma trim_no_edge_whitespace (s : string) :
  headIs isWhiteSpace (trim s) = false /\ endsWithWhiteSpace (trim s) = false.
Proof.
  unfold trim, endsWithWhiteSpace. split; [apply trimStart_head|].
  rewrite trimEnd_trimStart by apply trimEnd_idempotent.
  now rewrite String.eqb_refl.
Qed.

(** C5, as stated, fails.  Under a safe parent the child handed to the
    callback of [codeblock] is not safe: [write('a*b')] in the callback
    is not escaped, while a child made by [createChildWriter] would
    escape it. *)
Lemma codeblock_child_is_not_safe :
  let parent := newWriter true in
  let builder : Builder := write [VString "a*b"] in
  safeMode (createChildWriter parent) = true /\
  toString (builder (createChildWriter parent)) = "a\*b" ++ nl /\
  toString (codeblock "md" (inr builder) parent)
    = "```md" ++ nl ++ "a*b" ++ nl ++ "```" ++ nl ++ nl /\
  toString (codeblock "md" (inr builder) parent)
    <> "```md" ++ nl ++ trim (toString (builder (createChildWriter parent)))
         ++ nl ++ "```" ++ nl ++ nl.
Proof. repeat split. discriminate. Qed.

(** C5, amended.  With a builder callback, [codeblock] hands the callback
    a fresh writer that is never in safe mode, whatever the parent is; the
    child's rendered text, trimmed on both sides, is the body, and the
    block is rendered as padding, the opening fence with the language, a
    newline, the body, a newline, the closing fence and a blank line. *)
Theorem codeblock_builder_rendering (language : string) (builder : Builder)
  (this : ProseWriter) :
  let child := mkWriter [] false false in
  let body := trim (toString (builder child)) in
  toString (codeblock language (inr builder) this)
    = toString this ++ fst (padding this)
        ++ "```" ++ language ++ nl ++ body ++ nl ++ "```" ++ nl ++ nl /\
  headIs isWhiteSpace body = false /\
  endsWithWhiteSpace body = false.
Proof.
  intros child body. split; [|apply trim_no_edge_whitespace].
  unfold codeblock. rewrite toString_pushPadded. reflexivity.
Qed.

(* ================================================================= *)
(** ** Lists: nested writers *)

Lemma split_nl_not_nil (s : string) : split_nl s <> [].
Proof.
  induction s as [|c s IH]; simpl; [discriminate|].
  destruct (split_nl s); [congruence|]. destruct (Ascii.eqb c LF); discriminate.
Qed.

Lemma split_nl_noLF (s : string) : Forall (fun l => noLF l = true) (split_nl s).
Proof.
  induction s as [|c s IH]; simpl; [repeat constructor|].
  pose proof (split_nl_not_nil s) as Hn. revert IH Hn.
  destruct (split_nl s) as [|l ls]; intros IH Hn; [congruence|].
  inversion IH as [|? ? Hl Hls]; subst.
  destruct (Ascii.eqb c LF) eqn:E.
  - repeat constructor; assumption.
  - constructor; [simpl; now rewrite E|assumption].
Qed.

Lemma split_nl_line (l rest : string) :
  noLF l = true -> split_nl (l ++ nl ++ rest) = l :: split_nl rest.
Proof.
  induction l as [|c l IH]; intros H.
  - simpl. destruct (split_nl rest) eqn:E; [now destruct (split_nl_not_nil rest)|].
    reflexivity.
  - cbn [String.append split_nl noLF] in *.
    apply andb_true_iff in H. destruct H as [Hc Hl].
    rewrite (IH Hl). apply negb_true_iff in Hc. now rewrite Hc.
Qed.

Lemma split_nl_single (l : string) : noLF l = true -> split_nl l = [l].
Proof.
  induction l as [|c l IH]; simpl; intros H; [reflexivity|].
  apply andb_true_iff in H. destruct H as [Hc Hl].
  rewrite (IH Hl). apply negb_true_iff in Hc. now rewrite Hc.
Qed.

Lemma split_nl_join (ls : list string) :
  ls <> [] -> Forall (fun l => noLF l = true) ls -> split_nl (join nl ls) = ls.
Proof.
  induction ls as [|x ls IH]; [congruence|]. intros _ H.
  inversion H as [|? ? Hx Hls]; subst.
  destruct ls as [|y ls].
  - simpl. now apply split_nl_single.
  - change (join nl (x :: y :: ls)) with (x ++ nl ++ join nl (y :: ls)).
    rewrite split_nl_line by assumption. f_equal. apply IH; [discriminate|assumption].
Qed.

Lemma indentNested_lines (w : ProseWriter) :
  split_nl (indentNested w) = indentedLines (trimEnd (toString w)).
Proof.
  unfold indentNested, indentedLines. apply split_nl_join.
  - destruct (split_nl (trimEnd (toString w))) eqn:E;
      [now destruct (split_nl_not_nil (trimEnd (toString w)))|discriminate].
  - apply Forall_map. eapply Forall_impl; [|apply split_nl_noLF].
    intros l H. simpl. exact H.
Qed.

Lemma renders_by_map {A : Type} (writerOf' : A -> option ProseWriter)
  (render : A -> string) (l : list A) (this : ProseWriter) :
  (forall item w, writerOf' item = Some w -> render item = indentNested w) ->
  RendersNested writerOf' l this
    (pushPadded (join nl (map render l) ++ nl ++ nl) this).
Proof.
  intros Hr. exists (map render l). split; [apply length_map|]. split.
  - rewrite toString_pushPadded. reflexivity.
  - intros i item w Hi Hw. exists (render item). split.
    + now apply map_nth_error.
    + rewrite (Hr item w Hw). apply indentNested_lines.
Qed.

Lemma numberFlat_length (safe : bool) (l : list ContentValue) :
  forall index, List.length (numberFlat safe index l) = List.length l.
Proof.
  induction l as [|x l IH]; intros index; simpl; [reflexivity|].
  destruct x; simpl; now rewrite IH.
Qed.

Lemma numberBuilt_length (l : list ListItem) :
  forall index, List.length (numberBuilt index l) = List.length l.
Proof.
  induction l as [|x l IH]; intros index; simpl; [reflexivity|].
  destruct x; simpl; now rewrite IH.
Qed.

Lemma numberFlat_writer (safe : bool) (l : list ContentValue) :
  forall index i w,
    nth_error l i = Some (VWriter w) ->
    nth_error (numberFlat safe index l) i = Some (indentNested w).
Proof.
  induction l as [|x l IH]; intros index [|i] w H; simpl in H; try discriminate.
  - injection H as ->. reflexivity.
  - destruct x; simpl; now apply IH.
Qed.

Lemma numberBuilt_writer (l : list ListItem) :
  forall index i w,
    nth_error l i = Some (LWriter w) ->
    nth_error (numberBuilt index l) i = Some (indentNested w).
Proof.
  induction l as [|x l IH]; intros index [|i] w H; simpl in H; try discriminate.
  - injection H as ->. reflexivity.
  - destruct x; simpl; now apply IH.
Qed.

(** C8, as stated, fails for [tasks] called with items: a writer among
    the items is written out behind the checkbox, its lines are not
    indented.  [unorderedList] indents the same writer. *)
Lemma flat_tasks_do_not_indent :
  let nested :=
    unorderedList (WithItems [VString "x"; VString "y"]) (newWriter false) in
  toString nested = "- x" ++ nl ++ "- y" ++ nl ++ nl /\
  toString (tasks (WithItems [TaskValue (VWriter nested)]) (newWriter false))
    = "- [ ] - x" ++ nl ++ "- y" ++ nl ++ nl /\
  toString (unorderedList (WithItems [VWriter nested]) (newWriter false))
    = "  - x" ++ nl ++ "  - y" ++ nl ++ nl.
Proof. repeat split. Qed.

Lemma written_writer_text (safe : bool) (w : ProseWriter) :
  trimEnd (toString (write [VWriter w] (newWriter safe))) = trimEnd (toString w).
Proof.
  unfold write, escapeUntrusted. cbn [map toContentString safeMode newWriter].
  rewrite andb_false_r. unfold padding. cbn.
  destruct (Nat.eqb (String.length (trimEnd (toString w))) 0) eqn:E.
  - apply Nat.eqb_eq in E.
    destruct (trimEnd (toString w)); [reflexivity|discriminate].
  - unfold toString at 1. cbn [push parts app join].
    change (join "" [trimEnd (toString w) ++ nl])
      with (trimEnd (toString w) ++ nl).
    now rewrite trimEnd_app_nl, trimEnd_idempotent.
Qed.

Lemma taskText_writer (this : ProseWriter) (w : ProseWriter) :
  taskText this (TaskValue (VWriter w)) = "[ ] " ++ trimEnd (toString w) /\
  forall checked,
    taskText this (TaskPair (VWriter w) checked)
    = (if checked then "[x] " else "[ ] ") ++ trimEnd (toString w).
Proof.
  unfold taskText, createChildWriter.
  split; [|intros checked]; now rewrite written_writer_text.
Qed.

(** C8, amended.  In [unorderedList] and [orderedList], called with
    items or with a builder, and in [tasks] called with a builder, every
    item that is a nested writer (among the items given, or among those
    the builder has collected) is rendered to its full text,
    right-trimmed, with every line indented by two spaces, whatever the
    nested writer holds.  A writer handed to the builder's [item] or
    [task] is collected as its right-trimmed text and is written behind
    the bullet without indentation.  [tasks] called with items does not
    indent a writer either: it writes the right-trimmed text of the
    writer behind [- [ ] ], or behind [- [x] ] for a pair that is
    checked. *)
Theorem nested_items_are_indented (this : ProseWriter) :
  (forall l, RendersNested valueWriter l this (unorderedList (WithItems l) this)) /\
  (forall f, RendersNested itemWriter (getItems (f (createListBuilder this)))
               this (unorderedList (WithBuilder f) this)) /\
  (forall l, RendersNested valueWriter l this (orderedList (WithItems l) this)) /\
  (forall f, RendersNested itemWriter (getItems (f (createListBuilder this)))
               this (orderedList (WithBuilder f) this)) /\
  (forall f, RendersNested itemWriter (getItems (f (createListBuilder this)))
               this (tasks (WithBuilder f) this)) /\
  (forall args, exists rendered : list string,
      List.length rendered = List.length args /\
      toString (tasks (WithItems args) this)
        = toString this ++ fst (padding this) ++ join nl rendered ++ nl ++ nl /\
      forall i w,
        (nth_error args i = Some (TaskValue (VWriter w)) ->
         nth_error rendered i = Some ("- [ ] " ++ trimEnd (toString w))) /\
        (forall checked,
           nth_error args i = Some (TaskPair (VWriter w) checked) ->
           nth_error rendered i
             = Some ("- " ++ (if checked then "[x] " else "[ ] ")
                       ++ trimEnd (toString w)))) /\
  (forall w checked,
      toString (unorderedList (WithBuilder (LB.item [VWriter w])) this)
        = toString this ++ fst (padding this)
            ++ "- " ++ trimEnd (toString w) ++ nl ++ nl /\
      toString (tasks (WithBuilder (LB.task checked [VWriter w])) this)
        = toString this ++ fst (padding this)
            ++ "- " ++ (if checked then "[x] " else "[ ] ")
            ++ trimEnd (toString w) ++ nl ++ nl).
Proof.
  split; [|split; [|split; [|split; [|split; [|split]]]]].
  - intros l. apply renders_by_map. intros item w H; destruct item; inversion H; reflexivity.
  - intros f. apply (renders_by_map itemWriter (builtItem "- ")).
    intros item w H; destruct item; inversion H; reflexivity.
  - intros l. exists (numberFlat (safeMode this) 1 l).
    split; [apply numberFlat_length|]. split.
    + unfold orderedList. rewrite toString_pushPadded. reflexivity.
    + intros i item w Hi Hw. destruct item; inversion Hw; subst.
      exists (indentNested w). split; [now apply numberFlat_writer|].
      apply indentNested_lines.
  - intros f. exists (numberBuilt 1 (getItems (f (createListBuilder this)))).
    split; [apply numberBuilt_length|]. split.
    + unfold orderedList. rewrite toString_pushPadded. reflexivity.
    + intros i item w Hi Hw. destruct item; inversion Hw; subst.
      exists (indentNested w). split; [now apply numberBuilt_writer|].
      apply indentNested_lines.
  - intros f. apply (renders_by_map itemWriter (builtItem "- ")).
    intros item w H; destruct item; inversion H; reflexivity.
  - intros args.
    exists (map (fun item => "- " ++ item) (map (taskText this) args)).
    split; [now rewrite !length_map|]. split.
    + unfold tasks. now rewrite toString_pushPadded.
    + intros i w. destruct (taskText_writer this w) as [Hv Hp].
      split; [intros H|intros checked H];
        rewrite !nth_error_map, H; cbn [option_map];
        [rewrite Hv|rewrite Hp]; reflexivity.
  - intros w checked.
    unfold unorderedList, tasks, LB.item, LB.task, LB.child, pushItem,
      createListBuilder, getItems.
    cbn [items ownerSafe app map builtItem join].
    rewrite !toString_pushPadded, !written_writer_text.
    split; [reflexivity|].
    destruct checked; reflexivity.
Qed.

(* ================================================================= *)
(** ** Ordered lists: numbering *)

Lemma numberFlat_scalar (safe : bool) (l : list ContentValue) :
  forall index i item,
    nth_error l i = Some item -> isScalar item = true ->
    nth_error (numberFlat safe index l) i
      = Some (decimal (index + countBefore isScalar i l) ++ ". "
                ++ escapeUntrusted safe item TrimNone).
Proof.
  unfold countBefore.
  induction l as [|x l IH]; intros index [|i] item H Hs; simpl in H;
    try discriminate.
  - injection H as ->. rewrite Nat.add_0_r.
    destruct item; try discriminate; reflexivity.
  - destruct x; simpl; rewrite (IH _ _ _ H Hs); try rewrite Nat.add_succ_r;
      reflexivity.
Qed.

Lemma numberBuilt_string (l : list ListItem) :
  forall index i s,
    nth_error l i = Some (LString s) ->
    nth_error (numberBuilt index l) i
      = Some (decimal (index + countBefore isCollectedString i l) ++ ". " ++ s).
Proof.
  unfold countBefore.
  induction l as [|x l IH]; intros index [|i] s H; simpl in H; try discriminate.
  - injection H as ->. rewrite Nat.add_0_r. reflexivity.
  - destruct x; simpl; rewrite (IH _ _ _ H); try rewrite Nat.add_succ_r;
      reflexivity.
Qed.

(** C9.  [orderedList('x','y')] renders as "1. x\n2. y\n\n".  Within one
    call the scalar items are numbered 1, 2, 3, ... in render order (the
    item at position [i] gets one more than the number of scalar items
    before it; nested writers take no number), with items as well as with
    a builder.  The builder's [orderedList] renders the sub-list as a block
    of its own on a fresh writer, so it is numbered from 1 again, and
    collects it as a nested writer. *)
Theorem ordered_list_numbering (this : ProseWriter) :
  toString (orderedList (WithItems [VString "x"; VString "y"])
              (buildWrite false [VString ""]))
    = "1. x" ++ nl ++ "2. y" ++ nl ++ nl /\
  (forall l, exists rendered,
      List.length rendered = List.length l /\
      toString (orderedList (WithItems l) this)
        = toString this ++ fst (padding this) ++ join nl rendered ++ nl ++ nl /\
      forall i item,
        nth_error l i = Some item -> isScalar item = true ->
        nth_error rendered i
          = Some (decimal (1 + countBefore isScalar i l) ++ ". "
                    ++ escapeUntrusted (safeMode this) item TrimNone)) /\
  (forall f, exists rendered,
      let l := getItems (f (createListBuilder this)) in
      List.length rendered = List.length l /\
      toString (orderedList (WithBuilder f) this)
        = toString this ++ fst (padding this) ++ join nl rendered ++ nl ++ nl /\
      forall i s,
        nth_error l i = Some (LString s) ->
        nth_error rendered i
          = Some (decimal (1 + countBefore isCollectedString i l) ++ ". " ++ s)) /\
  (forall args l,
      let fresh := newWriter (ownerSafe l) in
      getItems (LB.orderedList args l)
        = (getItems l ++ [LWriter (orderedList args fresh)])%list /\
      toString fresh = "" /\ fst (padding fresh) = "") /\
  toString
    (orderedList
       (WithBuilder (fun l =>
          LB.item [VString "Cook"]
            (LB.orderedList
               (WithBuilder (fun sl =>
                  LB.item [VString "Mince garlic"]
                    (LB.item [VString "Chop onions"] sl)))
               (LB.item [VString "Prepare"] l))))
       (newWriter false))
    = "1. Prepare" ++ nl ++ "  1. Chop onions" ++ nl ++ "  2. Mince garlic"
        ++ nl ++ "2. Cook" ++ nl ++ nl.
Proof.
  split; [reflexivity|]. split; [|split; [|split; [|reflexivity]]].
  - intros l. exists (numberFlat (safeMode this) 1 l).
    split; [apply numberFlat_length|]. split.
    + unfold orderedList. now rewrite toString_pushPadded.
    + intros i item Hi Hs. now apply numberFlat_scalar.
  - intros f. exists (numberBuilt 1 (getItems (f (createListBuilder this)))).
    split; [apply numberBuilt_length|]. split.
    + unfold orderedList. now rewrite toString_pushPadded.
    + intros i s Hi. now apply numberBuilt_string.
  - intros args l. repeat split.
Qed.

(* ================================================================= *)
(** ** Validation gating *)

Section ValidationGating.

Variable Value : Type.
Variable JSON_parse : string -> Data Value + Thrown.
Variable JSON_stringify : Value -> string.
Variable toYamlString : Value -> string.

Lemma validateOutput_fails (format : OutputFormat) (data : Data Value)
  (options : ValidationOptions Value) :
  validate Value options <> None ->
  ValidationFails Value JSON_parse options format data ->
  exists e, validateOutput Value JSON_parse format data options = Some e
            /\ errorFormat e = format.
Proof.
  intros Hv Hf. unfold validateOutput.
  destruct (validate Value options) as [validator|] eqn:Ev; [|congruence].
  destruct Hf as [s t Hp | s parser t Hy Hp | format data validator' checked Ev' Hc Hr].
  - rewrite Hp. eexists. split; reflexivity.
  - rewrite Hy, Hp. eexists. split; reflexivity.
  - rewrite Ev in Ev'. injection Ev' as <-.
    destruct Hc as [s v Hp | s parser v Hy Hp | s Hy | format v].
    + rewrite Hp, Hr. eexists. split; reflexivity.
    + rewrite Hy, Hp, Hr. eexists. split; reflexivity.
    + rewrite Hy, Hr. eexists. split; reflexivity.
    + destruct format; rewrite Hr; eexists; split; reflexivity.
Qed.

(** C4.  With a [validate] option present, when validation fails (the
    validator reports [valid: false], a JSON string does not parse, or the
    supplied [parseYaml] throws on a YAML string), [json] and [yaml] throw a
    [ValidationError] of their format and leave the writer as it was: its
    fragments and rendered text are those before the call.  Without
    [validate], nothing is validated and the data is serialized into the
    code block. *)
Theorem validation_gating (data : Data Value) (options : ValidationOptions Value)
  (this : ProseWriter) :
  (validate Value options <> None ->
     (ValidationFails Value JSON_parse options Json data ->
        exists e,
          json Value JSON_parse JSON_stringify data options this = Threw e this
          /\ errorFormat e = Json
          /\ toString
               (writerOf (json Value JSON_parse JSON_stringify data options this))
             = toString this) /\
     (ValidationFails Value JSON_parse options Yaml data ->
        exists e,
          yaml Value JSON_parse toYamlString data options this = Threw e this
          /\ errorFormat e = Yaml
          /\ toString
               (writerOf (yaml Value JSON_parse toYamlString data options this))
             = toString this)) /\
  (validate Value options = None ->
     json Value JSON_parse JSON_stringify data options this
       = Returned
           (codeblock "json"
              (inl match data with DString s => s | DValue v => JSON_stringify v end)
              this)
     /\
     yaml Value JSON_parse toYamlString data options this
       = Returned
           (codeblock "yaml"
              (inl match data with DString s => s | DValue v => toYamlString v end)
              this)).
Proof.
  split.
  - intros Hv. split; intros Hf;
      destruct (validateOutput_fails _ data options Hv Hf) as [e [He Hfmt]];
      exists e; unfold json, yaml; rewrite He; repeat split; assumption.
  - intros Hv. unfold json, yaml, validateOutput. rewrite Hv. split; reflexivity.
Qed.

End ValidationGating.

Lemma validation_gating_witness :
  let parse : string -> Data unit + Thrown :=
    fun _ => inr (ThrownError "Unexpected token b") in
  let accept : OutputValidator unit := fun _ _ _ => mkResult true None in
  let options := mkOptions unit None (Some accept) None None in
  let this := buildWrite false [VString "Reply with:"] in
  exists e,
    json unit parse (fun _ => "null") (DString "{bad") options this = Threw e this
    /\ errorFormat e = Json
    /\ toString
         (writerOf (json unit parse (fun _ => "null") (DString "{bad") options this))
       = "Reply with:" ++ nl.
Proof.
  intros parse accept options this.
  destruct (validation_gating unit parse (fun _ => "null") (fun _ => "null")
              (DString "{bad") options this) as [H _].
  assert (Hv : validate unit options <> None) by discriminate.
  destruct (proj1 (H Hv)
              (JsonDoesNotParse unit parse options "{bad"
                 (ThrownError "Unexpected token b") eq_refl))
    as [e [He [Hf Ht]]].
  exists e. repeat split; assumption.
Defined.

(* ================================================================= *)
(** ** Link destinations *)

Lemma prefix_spec (p s : string) :
  String.prefix p s = true <-> exists r, s = p ++ r.
Proof.
  revert s. induction p as [|a p IH]; intros s; simpl.
  - destruct s; split; eauto.
  - destruct s as [|b s]; simpl.
    + split; [discriminate|]. intros [r H]. discriminate.
    + destruct (ascii_dec a b) as [->|Hne].
      * rewrite IH. split; intros [r H]; exists r; [now rewrite H|].
        now injection H.
      * split; [discriminate|]. intros [r H]. injection H as H _. congruence.
Qed.

Lemma spanClass_split (cls : ascii -> bool) (s : string) :
  s = fst (spanClass cls s) ++ snd (spanClass cls s)
  /\ allChars cls (fst (spanClass cls s)) = true
  /\ headIs cls (snd (spanClass cls s)) = false.
Proof.
  induction s as [|c s IH]; simpl; [auto|].
  destruct (cls c) eqn:Ec.
  - destruct (spanClass cls s) as [run rest]. simpl in *.
    destruct IH as [E [Ha Hh]]. rewrite Ec, Ha, <- E. auto.
  - simpl. auto.
Qed.

Lemma spanClass_run (cls : ascii -> bool) (run rest : string) :
  allChars cls run = true -> headIs cls rest = false ->
  spanClass cls (run ++ rest) = (run, rest).
Proof.
  intros Hrun Hrest. induction run as [|c run IH]; simpl in *.
  - destruct rest as [|c rest]; [reflexivity|]. simpl in *. now rewrite Hrest.
  - apply andb_true_iff in Hrun. destruct Hrun as [Hc Hrun].
    now rewrite Hc, (IH Hrun).
Qed.

Lemma schemeChar_not_colon (c : ascii) :
  isSchemeChar c = true -> Ascii.eqb c ":" = false.
Proof.
  intros H. destruct (Ascii.eqb c ":") eqn:E; [|reflexivity].
  apply Ascii.eqb_eq in E. subst c. discriminate.
Qed.

Lemma lowerAz_schemeChar (c : ascii) : isLowerAz c = true -> isSchemeChar c = true.
Proof. intros H. unfold isSchemeChar. now rewrite H. Qed.

Lemma hasScheme_spec (lower : string) :
  hasScheme lower = true <-> exists sch, HasScheme lower sch.
Proof.
  unfold hasScheme, HasScheme. split.
  - destruct lower as [|c rest]; [discriminate|].
    rewrite andb_true_iff. intros [Hc Hcolon].
    destruct (spanClass_split isSchemeChar rest) as [E [Hrun _]].
    destruct (spanClass isSchemeChar rest) as [run tail]. simpl in *.
    destruct tail as [|t tail]; [discriminate|]. simpl in Hcolon.
    apply Ascii.eqb_eq in Hcolon. subst t.
    exists (String c run). simpl. rewrite Hc, Hrun. split; [reflexivity|].
    exists tail. now rewrite E.
  - intros [sch [Hname [rest ->]]].
    destruct sch as [|c cs]; [discriminate|]. simpl in *.
    apply andb_true_iff in Hname. destruct Hname as [Hc Hcs].
    rewrite Hc, (spanClass_run isSchemeChar cs (String ":" rest) Hcs eq_refl).
    reflexivity.
Qed.

(** Two scheme names in front of a colon in the same string are equal. *)
Lemma scheme_unique (a b x y : string) :
  allChars isSchemeChar a = true -> allChars isSchemeChar b = true ->
  a ++ ":" ++ x = b ++ ":" ++ y -> a = b.
Proof.
  revert b. induction a as [|c a IH]; intros [|d b] Ha Hb E; simpl in *.
  - reflexivity.
  - injection E as <- _. apply andb_true_iff in Hb. destruct Hb as [Hd _].
    apply schemeChar_not_colon in Hd. discriminate.
  - injection E as -> _. apply andb_true_iff in Ha. destruct Ha as [Hc _].
    apply schemeChar_not_colon in Hc. discriminate.
  - injection E as -> E. apply andb_true_iff in Ha. apply andb_true_iff in Hb.
    f_equal. apply (IH b); tauto.
Qed.

Lemma schemeName_chars (sch : string) :
  isSchemeName sch = true -> allChars isSchemeChar sch = true.
Proof.
  destruct sch as [|c cs]; [discriminate|]. simpl.
  rewrite !andb_true_iff. intros [Hc Hcs]. split; [|assumption].
  now apply lowerAz_schemeChar.
Qed.

Lemma allowedScheme_spec (lower sch : string) :
  HasScheme lower sch ->
  allowedScheme lower = true <-> sch = "http" \/ sch = "https" \/ sch = "mailto".
Proof.
  intros [Hname [rest ->]]. apply schemeName_chars in Hname.
  unfold allowedScheme, startsWith. rewrite !orb_true_iff, !prefix_spec.
  assert (U : forall known r,
             allChars isSchemeChar known = true ->
             sch ++ ":" ++ rest = (known ++ ":") ++ r -> sch = known).
  { intros known r Hk E. rewrite append_assoc in E.
    now apply (scheme_unique sch known rest r). }
  split.
  - intros [[[r E] | [r E]] | [r E]].
    + left. now apply (U "http" r).
    + right; left. now apply (U "https" r).
    + right; right. now apply (U "mailto" r).
  - intros [-> | [-> | ->]]; [left; left | left; right | right]; now exists rest.
Qed.

Lemma sanitize_rejected (url sch : string) :
  HasScheme (toLowerCase (trim url)) sch ->
  sch <> "http" -> sch <> "https" -> sch <> "mailto" ->
  sanitizeLinkDestination url = "#".
Proof.
  intros Hs H1 H2 H3. unfold sanitizeLinkDestination.
  assert (Ha : allowedScheme (toLowerCase (trim url)) = false).
  { destruct (allowedScheme (toLowerCase (trim url))) eqn:E; [|reflexivity].
    apply (allowedScheme_spec _ sch Hs) in E. tauto. }
  assert (Hh : hasScheme (toLowerCase (trim url)) = true)
    by (apply hasScheme_spec; now exists sch).
  now rewrite Hh, Ha.
Qed.

Lemma sanitize_kept (url : string) :
  ((forall sch, ~ HasScheme (toLowerCase (trim url)) sch)
   \/ HasScheme (toLowerCase (trim url)) "http"
   \/ HasScheme (toLowerCase (trim url)) "https"
   \/ HasScheme (toLowerCase (trim url)) "mailto") ->
  sanitizeLinkDestination url = escapeLinkDestination (trim url).
Proof.
  intros H. unfold sanitizeLinkDestination.
  destruct H as [Hno | Hok].
  - assert (Hh : hasScheme (toLowerCase (trim url)) = false).
    { destruct (hasScheme (toLowerCase (trim url))) eqn:E; [|reflexivity].
      apply hasScheme_spec in E. destruct E as [sch Hs]. now destruct (Hno sch). }
    now rewrite Hh.
  - assert (Ha : allowedScheme (toLowerCase (trim url)) = true).
    { destruct Hok as [Hs | [Hs | Hs]];
        apply (allowedScheme_spec _ _ Hs); tauto. }
    rewrite Ha. now rewrite andb_false_r.
Qed.

(** C6.  In safe mode the link and image formatters take their destination
    from [sanitizeLinkDestination].  A URL that, trimmed and lower-cased,
    starts with a scheme other than http, https and mailto gets the
    destination [#].  Every other URL (no scheme, or one of the three) gets
    its trimmed text percent-encoded, with a backslash before each
    parenthesis; [https://example.com] is rendered unchanged. *)
Theorem link_destination_sanitized (text : ContentValue) (url : string) :
  let lower := toLowerCase (trim url) in
  jsString (safeLink text url)
    = "[" ++ toSafeInlineText text ++ "](" ++ sanitizeLinkDestination url ++ ")" /\
  jsString (safeImage text url)
    = "![" ++ toSafeInlineText text ++ "](" ++ sanitizeLinkDestination url ++ ")" /\
  (forall this, safeMode this = true ->
     Enhanced.link this = safeLink /\ Enhanced.image this = safeImage) /\
  (forall sch,
     HasScheme lower sch ->
     sch <> "http" -> sch <> "https" -> sch <> "mailto" ->
     sanitizeLinkDestination url = "#") /\
  ((forall sch, ~ HasScheme lower sch)
   \/ HasScheme lower "http" \/ HasScheme lower "https"
   \/ HasScheme lower "mailto" ->
   sanitizeLinkDestination url
     = backslashAll (inClass "()") (encodeURI (trim url))) /\
  sanitizeLinkDestination "https://example.com" = "https://example.com".
Proof.
  intros lower. split; [|split; [|split; [|split; [|split]]]].
  - unfold safeLink, toSafeInlineText.
    destruct (toContentString text TrimBoth) as [value []]; reflexivity.
  - unfold safeImage, toSafeInlineText.
    destruct (toContentString text TrimBoth) as [value []]; reflexivity.
  - intros this H. unfold Enhanced.link, Enhanced.image. now rewrite H.
  - intros sch. apply sanitize_rejected.
  - apply sanitize_kept.
  - reflexivity.
Qed.

Lemma link_destination_sanitized_witness :
  HasScheme (toLowerCase (trim " JavaScript:alert(1)")) "javascript" /\
  sanitizeLinkDestination " JavaScript:alert(1)" = "#".
Proof.
  assert (H : HasScheme (toLowerCase (trim " JavaScript:alert(1)")) "javascript").
  { split; [reflexivity|]. now exists "alert(1)". }
  split; [exact H|].
  apply (proj1 (proj2 (proj2 (proj2
           (link_destination_sanitized (VString "x") " JavaScript:alert(1)"))))
           "javascript" H); discriminate.
Defined.

(* ================================================================= *)
(** ** Trusted values in safe mode *)

Lemma SafeFormatted_trusted (s : string) (v : ContentValue) :
  SafeFormatted s v -> exists t, v = VSafe t.
Proof. intros []; eexists; reflexivity. Qed.

Lemma escapeUntrusted_trusted (safe : bool) (t : string) (mode : TrimMode) :
  escapeUntrusted safe (VSafe t) mode = t.
Proof. unfold escapeUntrusted. simpl. now rewrite andb_false_r. Qed.

Lemma escape_map_trusted (content : list ContentValue) (mode : TrimMode) :
  AllSafeFormatted content ->
  map (fun c => escapeUntrusted true c mode) content
  = map (fun c => escapeUntrusted false c mode) content.
Proof.
  induction 1 as [|c content [s Hc] _ IH]; simpl; [reflexivity|].
  destruct (SafeFormatted_trusted s c Hc) as [t ->].
  now rewrite !escapeUntrusted_trusted, IH.
Qed.

Lemma flatItem_map_trusted (bullet : string) (content : list ContentValue) :
  AllSafeFormatted content ->
  map (flatItem true bullet) content = map (flatItem false bullet) content.
Proof.
  induction 1 as [|c content [s Hc] _ IH]; simpl; [reflexivity|].
  destruct (SafeFormatted_trusted s c Hc) as [t ->].
  unfold flatItem at 1 3. now rewrite !escapeUntrusted_trusted, IH.
Qed.

Lemma numberFlat_trusted (content : list ContentValue) :
  AllSafeFormatted content ->
  forall index, numberFlat true index content = numberFlat false index content.
Proof.
  induction 1 as [|c content [s Hc] _ IH]; intros index; simpl; [reflexivity|].
  destruct (SafeFormatted_trusted s c Hc) as [t ->].
  now rewrite !escapeUntrusted_trusted, IH.
Qed.

Lemma padding_ignores_mode (ps : list string) (skip safe : bool) :
  fst (padding (mkWriter ps skip safe)) = fst (padding (mkWriter ps skip false)).
Proof.
  unfold padding. simpl.
  repeat match goal with
         | |- context [if ?b then _ else _] => destruct b
         end; reflexivity.
Qed.

Lemma pushPadded_ignores_mode (body : string) (ps : list string) (skip : bool) :
  toString (pushPadded body (mkWriter ps skip true))
  = toString (pushPadded body (mkWriter ps skip false)).
Proof.
  rewrite !toString_pushPadded. now rewrite (padding_ignores_mode ps skip true).
Qed.

(** C3, as stated, fails.  The safe code formatter fences a trusted value
    again, with a longer fence than the plain [code]; the safe link
    sanitizes the destination, the plain [link] does not; and a table cell
    of a safe writer escapes a trusted value a second time. *)
Lemma safe_operations_differ_on_trusted :
  SafeFormatted "x" (safeInlineCode (VString "x")) /\
  jsString (safeInlineCode (safeInlineCode (VString "x"))) = "```x```" /\
  jsString (code (safeInlineCode (VString "x"))) = "``x``" /\
  jsString (safeLink (safeBold (VString "x")) "javascript:alert(1)")
    = "[**x**](#)" /\
  jsString (link (safeBold (VString "x")) "javascript:alert(1)")
    = "[**x**](javascript:alert(1))" /\
  toString (table ["h"] [[safeBold (VString "x")]] (newWriter true))
    = "| h |" ++ nl ++ "| --- |" ++ nl ++ "| \*\*x\*\* |" ++ nl ++ nl /\
  toString (table ["h"] [[safeBold (VString "x")]] (newWriter false))
    = "| h |" ++ nl ++ "| --- |" ++ nl ++ "| **x** |" ++ nl ++ nl.
Proof. repeat split. constructor. Qed.

(** C3, amended.  The output of a safe inline formatter is marked trusted
    and is not escaped when it is fed back: [write], [heading],
    [blockquote], the items of [unorderedList] and [orderedList], and the
    content of [tag] and [callout] render it on a safe writer exactly as on
    a plain one; the safe [bold], [italic] and [strike] give the text of the
    plain ones; the safe [link] and [image] give the text of the plain ones
    at the sanitized destination; the safe [code] fences the trusted text
    itself, unescaped. *)
Theorem trusted_values_are_not_escaped (content : list ContentValue)
  (s : string) (v : ContentValue) (ps : list string) (skip : bool) :
  AllSafeFormatted content -> SafeFormatted s v ->
  let safeW := mkWriter ps skip true in
  let plainW := mkWriter ps skip false in
  toString (write content safeW) = toString (write content plainW) /\
  (forall level,
     toString (heading level content safeW)
     = toString (heading level content plainW)) /\
  toString (blockquote content safeW) = toString (blockquote content plainW) /\
  toString (unorderedList (WithItems content) safeW)
    = toString (unorderedList (WithItems content) plainW) /\
  toString (orderedList (WithItems content) safeW)
    = toString (orderedList (WithItems content) plainW) /\
  (forall name,
     toString (tag name (inl v) safeW) = toString (tag name (inl v) plainW)) /\
  (forall type,
     toString (callout type (inl v) safeW)
     = toString (callout type (inl v) plainW)) /\
  jsString (safeBold v) = jsString (bold v) /\
  jsString (safeItalic v) = jsString (italic v) /\
  jsString (safeStrike v) = jsString (strike v) /\
  (forall url,
     jsString (safeLink v url)
     = jsString (link v (sanitizeLinkDestination url))) /\
  (forall url,
     jsString (safeImage v url)
     = jsString (image v (sanitizeLinkDestination url))) /\
  jsString (safeInlineCode v) = wrapInlineCode (jsString v).
Proof.
  intros Hall Hv safeW plainW.
  destruct (SafeFormatted_trusted s v Hv) as [t ->].
  repeat match goal with |- _ /\ _ => split end; try reflexivity.
  - unfold write, safeW, plainW. simpl.
    rewrite (escape_map_trusted content TrimEnd Hall).
    match goal with |- context [if ?b then _ else _] => destruct b end;
      [reflexivity|].
    apply (pushPadded_ignores_mode
             (join " " (map (fun c => escapeUntrusted false c TrimEnd) content)
                ++ nl) ps skip).
  - intros level. unfold heading, safeW, plainW. simpl.
    rewrite (escape_map_trusted content TrimNone Hall).
    apply pushPadded_ignores_mode.
  - unfold blockquote, safeW, plainW. simpl.
    rewrite (escape_map_trusted content TrimNone Hall).
    apply pushPadded_ignores_mode.
  - unfold unorderedList, safeW, plainW. simpl.
    rewrite (flatItem_map_trusted "- " content Hall).
    apply pushPadded_ignores_mode.
  - unfold orderedList, safeW, plainW. simpl.
    rewrite (numberFlat_trusted content Hall).
    apply pushPadded_ignores_mode.
  - intros name. unfold tag, safeW, plainW. simpl.
    rewrite !escapeUntrusted_trusted. apply pushPadded_ignores_mode.
  - intros type. unfold callout, safeW, plainW. simpl.
    rewrite !escapeUntrusted_trusted. apply pushPadded_ignores_mode.
Qed.

Lemma trusted_values_are_not_escaped_witness :
  toString (write [safeBold (VString "a*b")] (mkWriter [] false true))
    = toString (write [safeBold (VString "a*b")] (mkWriter [] false false)) /\
  jsString (safeBold (safeLink (VString "t") "u"))
    = jsString (bold (safeLink (VString "t") "u")).
Proof.
  assert (Hall : AllSafeFormatted [safeBold (VString "a*b")]).
  { constructor; [exists "a*b"; constructor|constructor]. }
  pose proof (trusted_values_are_not_escaped [safeBold (VString "a*b")] "t"
                (safeLink (VString "t") "u") [] false Hall
                (FormattedLink "t" "u")) as H.
  split; [exact (proj1 H)|].
  exact (proj1 (proj2 (proj2 (proj2 (proj2 (proj2 (proj2 (proj2 H)))))))).
Defined.

(* ================================================================= *)
(** ** Every appender pushes one padded fragment *)

Lemma appendBlock_pushPadded (b : Block) (safe : bool) :
  exists body,
    forall ps skip,
      appendBlock b (mkWriter ps skip safe)
      = pushPadded body (mkWriter ps skip safe).
Proof.
  destruct b as [args|args|args|type content|level content|lines
                |language content| |name content|name builder level
                |headers rows|obj|content|open close content
                |content|content|content|content|text url|alt url];
    try destruct args; try destruct content;
    eexists; intros ps skip;
    unfold appendBlock, unorderedList, orderedList, tasks, callout, heading,
      blockquote, codeblock, separator, tag, section, table, definitions,
      comment, delimit, Append.code, Append.bold, Append.italic,
      Append.strike, Append.link, Append.image, Enhanced.code, Enhanced.bold,
      Enhanced.italic, Enhanced.strike, Enhanced.link, Enhanced.image,
      taskText, createListBuilder, createChildWriter;
    cbn [safeMode parts]; reflexivity.
Qed.

Lemma padding_fresh (safe : bool) : fst (padding (newWriter safe)) = "".
Proof. reflexivity. Qed.

(** The body of a call is what the call renders on a fresh writer. *)
Lemma appendBlock_body (b : Block) (this : ProseWriter) :
  appendBlock b this
  = pushPadded (toString (appendBlock b (newWriter (safeMode this)))) this.
Proof.
  destruct (appendBlock_pushPadded b (safeMode this)) as [body H].
  unfold newWriter. rewrite (H [] false), toString_pushPadded.
  change (toString (mkWriter [] false (safeMode this))) with "".
  change (fst (padding (mkWriter [] false (safeMode this)))) with "".
  destruct this as [ps skip safe]. apply H.
Qed.

(** X1.  Every block or inline appender other than [raw] (the calls of
    [Block]) pushes exactly one fragment: the padding prefix followed by
    what the same call renders on a fresh writer of the same mode.  The
    fragments already there are kept, the pending flag is cleared and the
    mode is unchanged.  [raw] is the exception: it pushes its content as
    it is, with no prefix, and leaves a pending flag as it was. *)
Theorem block_pushes_one_fragment (b : Block) (this : ProseWriter) :
  let body := toString (appendBlock b (newWriter (safeMode this))) in
  parts (appendBlock b this)
    = (parts this ++ [(fst (padding this) ++ body)%string])%list /\
  toString (appendBlock b this) = toString this ++ fst (padding this) ++ body /\
  skipNextPadding (appendBlock b this) = false /\
  safeMode (appendBlock b this) = safeMode this /\
  (forall content,
     parts (raw content this) = (parts this ++ [content])%list /\
     toString (raw content this) = toString this ++ content /\
     skipNextPadding (raw content this) = skipNextPadding this /\
     safeMode (raw content this) = safeMode this).
Proof.
  intros body. rewrite (appendBlock_body b this). fold body.
  rewrite toString_pushPadded, pushPadded_eq.
  split; [reflexivity|]. split; [reflexivity|]. split; [reflexivity|].
  split; [reflexivity|].
  intros content. unfold raw. rewrite toString_push. repeat split.
Qed.

(* ================================================================= *)
(** ** [nextLine] *)

(** X2.  After [nextLine()] the next appender is glued to the text with no
    prefix at all, whatever the last fragment ends with, and the flag is
    used up by it; for [write] on a writer with fragments the text grows
    by the joined content and one newline. *)
Theorem nextLine_glues_next_append (this : ProseWriter) :
  (forall b,
     toString (appendBlock b (nextLine this))
       = toString this ++ toString (appendBlock b (newWriter (safeMode this)))
     /\ skipNextPadding (appendBlock b (nextLine this)) = false) /\
  (forall content,
     parts this <> [] ->
     toString (write content (nextLine this))
       = toString this
           ++ join " "
                (map (fun c => escapeUntrusted (safeMode this) c TrimEnd) content)
           ++ nl
     /\ skipNextPadding (write content (nextLine this)) = false).
Proof.
  split.
  - intros b. rewrite (appendBlock_body b (nextLine this)).
    rewrite toString_pushPadded, pushPadded_eq. split; reflexivity.
  - intros content Hne.
    rewrite (write_nonempty content (nextLine this)) by exact Hne.
    rewrite toString_pushPadded, pushPadded_eq. split; reflexivity.
Qed.

Lemma nextLine_glues_next_append_witness :
  toString (write [VString "b"] (nextLine (buildWrite false [VString "a"])))
    = "a" ++ nl ++ "b" ++ nl.
Proof.
  assert (H : parts (buildWrite false [VString "a"]) <> []) by discriminate.
  exact (proj1 (proj2 (nextLine_glues_next_append
                         (buildWrite false [VString "a"])) [VString "b"] H)).
Defined.

(* ================================================================= *)
(** ** Blocks that close with their own marker *)

Lemma not_EndsWith_app (a b : string) :
  b <> "" -> ~ EndsWith b nl -> ~ EndsWith (a ++ b) nl.
Proof.
  intros Hb Hn H. apply Hn. apply (EndsWith_drop_prefix a); [|exact H].
  destruct b; [congruence|simpl; lia].
Qed.

Lemma app_not_empty (a b : string) : b <> "" -> a ++ b <> "".
Proof. destruct a; simpl; [auto|discriminate]. Qed.

(** What follows a fragment [core ++ terminator] is one blank line away
    from [core]. *)
Lemma block_after_core (b : Block) (core : string) (one : bool)
  (this : ProseWriter) :
  core <> "" -> ~ EndsWith core nl ->
  exists head,
    ~ EndsWith head nl /\
    toString
      (appendBlock b (pushPadded (core ++ (if one then nl else nl ++ nl)) this))
    = head ++ nl ++ nl
        ++ toString (appendBlock b (newWriter (safeMode this))).
Proof.
  intros Hne Hcore. exists (toString this ++ fst (padding this) ++ core).
  split.
  - rewrite <- append_assoc. now apply not_EndsWith_app.
  - rewrite appendBlock_body.
    replace (safeMode (pushPadded (core ++ (if one then nl else nl ++ nl)) this))
      with (safeMode this) by now rewrite pushPadded_eq.
    rewrite (paragraph_break_after core _ one this Hne Hcore).
    now rewrite !append_assoc.
Qed.

(** X3.  Whatever is appended after a tag, a code block, a comment or a
    separator starts exactly one blank line after it: the text before the
    two newlines does not end with a newline, whatever the name, the
    language or the content are. *)
Theorem paragraph_break_after_closed_blocks (b : Block) (this : ProseWriter) :
  let next := toString (appendBlock b (newWriter (safeMode this))) in
  (forall name content, exists head,
      ~ EndsWith head nl /\
      toString (appendBlock b (tag name content this))
        = head ++ nl ++ nl ++ next) /\
  (forall language content, exists head,
      ~ EndsWith head nl /\
      toString (appendBlock b (codeblock language content this))
        = head ++ nl ++ nl ++ next) /\
  (forall content, exists head,
      ~ EndsWith head nl /\
      toString (appendBlock b (comment content this)) = head ++ nl ++ nl ++ next) /\
  (exists head,
      ~ EndsWith head nl /\
      toString (appendBlock b (separator this)) = head ++ nl ++ nl ++ next).
Proof.
  intros next. subst next.
  assert (Hlit : forall lit, lit <> "" -> endsWith lit nl = false ->
                 forall a, a ++ lit <> "" /\ ~ EndsWith (a ++ lit) nl).
  { intros lit Hne He a. apply endsWith_false in He.
    split; [now apply app_not_empty|now apply not_EndsWith_app]. }
  split; [|split; [|split]].
  - intros name content. unfold tag.
    set (cs := trimEnd _).
    destruct (Hlit ">" ltac:(discriminate) eq_refl
                ("<" ++ name ++ ">" ++ nl ++ cs ++ nl ++ "</" ++ name))
      as [Hne Hn].
    destruct (block_after_core b _ true this Hne Hn) as [head [Hh E]].
    exists head. split; [exact Hh|]. rewrite <- E. do 3 f_equal.
    now rewrite !append_assoc.
  - intros language content. unfold codeblock.
    set (code := match content with inl s => s | inr _ => _ end).
    destruct (Hlit "```" ltac:(discriminate) eq_refl
                ("```" ++ language ++ nl ++ code ++ nl))
      as [Hne Hn].
    destruct (block_after_core b _ false this Hne Hn) as [head [Hh E]].
    exists head. split; [exact Hh|]. rewrite <- E. do 3 f_equal.
    now rewrite !append_assoc.
  - intros content. unfold comment.
    destruct (Hlit " -->" ltac:(discriminate) eq_refl ("<!-- " ++ content))
      as [Hne Hn].
    destruct (block_after_core b _ false this Hne Hn) as [head [Hh E]].
    exists head. split; [exact Hh|]. rewrite <- E. do 3 f_equal.
    now rewrite !append_assoc.
  - unfold separator.
    destruct (Hlit "---" ltac:(discriminate) eq_refl "") as [Hne Hn].
    destruct (block_after_core b _ false this Hne Hn) as [head [Hh E]].
    exists head. split; [exact Hh|]. exact E.
Qed.

(* ================================================================= *)
(** ** Sections *)



(* ================================================================= *)
(** ** [compact] and [trim] *)

Lemma toString_seeded (content : string) (safe : bool) :
  toString (seededWriter content safe) = withNewline content.
Proof. unfold toString, seededWriter, withNewline. simpl. reflexivity. Qed.

Lemma withNewline_ends (content : string) : EndsWith (withNewline content) nl.
Proof.
  unfold withNewline. destruct (endsWith content nl) eqn:E.
  - now apply endsWith_spec.
  - now exists content.
Qed.

Lemma withNewline_closed (content : string) :
  EndsWith content nl -> withNewline content = content.
Proof. intros H. unfold withNewline. apply endsWith_spec in H. now rewrite H. Qed.

Lemma noThirdNewline_ge2 (s : string) (r r' : nat) :
  2 <= r -> 2 <= r' -> noThirdNewline r s = noThirdNewline r' s.
Proof.
  intros H H'. destruct s as [|c s]; simpl; [reflexivity|].
  destruct (Ascii.eqb c LF); [|reflexivity].
  assert (E : Nat.ltb r 2 = false) by (apply Nat.ltb_ge; lia).
  assert (E' : Nat.ltb r' 2 = false) by (apply Nat.ltb_ge; lia).
  now rewrite E, E'.
Qed.

Lemma collapseNewlines_ge2 (s : string) :
  forall r r', 2 <= r -> 2 <= r' -> collapseNewlines r s = collapseNewlines r' s.
Proof.
  induction s as [|c s IH]; intros r r' H H'; simpl; [reflexivity|].
  destruct (Ascii.eqb c LF); [|reflexivity].
  assert (E : Nat.ltb r 2 = false) by (apply Nat.ltb_ge; lia).
  assert (E' : Nat.ltb r' 2 = false) by (apply Nat.ltb_ge; lia).
  rewrite E, E'. apply IH; lia.
Qed.

Lemma collapseNewlines_ok (s : string) :
  forall r, noThirdNewline r (collapseNewlines r s) = true.
Proof.
  induction s as [|c s IH]; intros r; simpl; [reflexivity|].
  destruct (Ascii.eqb c LF) eqn:Ec.
  - destruct (Nat.ltb r 2) eqn:Er.
    + simpl. now rewrite Ec, Er, IH.
    + apply Nat.ltb_ge in Er.
      rewrite (noThirdNewline_ge2 _ r (S r)) by lia. apply IH.
  - simpl. now rewrite Ec, IH.
Qed.

Lemma collapseNewlines_fixed (s : string) :
  forall r, noThirdNewline r s = true -> collapseNewlines r s = s.
Proof.
  induction s as [|c s IH]; intros r H; simpl in *; [reflexivity|].
  destruct (Ascii.eqb c LF).
  - apply andb_true_iff in H. destruct H as [Hr Hs]. rewrite Hr.
    f_equal. now apply IH.
  - f_equal. now apply IH.
Qed.

Lemma noThirdNewline_suffix (a x : string) :
  forall r, noThirdNewline r (a ++ x) = true ->
            exists r', noThirdNewline r' x = true.
Proof.
  induction a as [|c a IH]; intros r H; simpl in H; [now exists r|].
  destruct (Ascii.eqb c LF).
  - apply andb_true_iff in H. destruct H as [_ H]. now apply (IH (S r)).
  - now apply (IH 0).
Qed.

Lemma noThirdNewline_no_triple (s : string) (r : nat) :
  noThirdNewline r s = true -> ~ Occurs (nl ++ nl ++ nl) s.
Proof.
  intros H [before [after E]]. subst s.
  apply noThirdNewline_suffix in H. destruct H as [r' H].
  simpl in H. destruct r' as [|[|r']]; simpl in H; discriminate.
Qed.

Lemma EndsWith_cons (c : ascii) (s suf : string) :
  EndsWith s suf -> EndsWith (String c s) suf.
Proof. intros [pre ->]. now exists (String c pre). Qed.

Lemma noThirdNewline_close (s : string) :
  forall r, noThirdNewline r s = true -> (s = "" -> r < 2) ->
            ~ EndsWith s nl -> noThirdNewline r (s ++ nl) = true.
Proof.
  induction s as [|c s IH]; intros r H H0 He; simpl.
  - assert (E : Nat.ltb r 2 = true) by (apply Nat.ltb_lt; auto). now rewrite E.
  - simpl in H. destruct (Ascii.eqb c LF) eqn:Ec.
    + apply andb_true_iff in H. destruct H as [Hr Hs]. rewrite Hr. simpl.
      apply IH; [exact Hs| |].
      * intros ->. exfalso. apply He. apply Ascii.eqb_eq in Ec. subst c.
        now exists "".
      * intros Hs'. apply He. now apply EndsWith_cons.
    + apply IH; [exact H|lia|].
      intros Hs'. apply He. now apply EndsWith_cons.
Qed.

Lemma withNewline_ok (t : string) :
  noThirdNewline 0 t = true -> noThirdNewline 0 (withNewline t) = true.
Proof.
  intros H. unfold withNewline. destruct (endsWith t nl) eqn:E; [exact H|].
  apply noThirdNewline_close; [exact H|lia|now apply endsWith_false].
Qed.

Lemma Occurs_extend (sub s pre : string) : Occurs sub s -> Occurs sub (pre ++ s).
Proof.
  intros [b [a ->]]. exists (pre ++ b), a. now rewrite append_assoc.
Qed.

Lemma third_newline_occurs (s : string) :
  forall r, r <= 2 -> noThirdNewline r s = false ->
            Occurs (nl ++ nl ++ nl) (repeat nl r ++ s).
Proof.
  induction s as [|c s IH]; intros r Hr H; simpl in H; [discriminate|].
  destruct (Ascii.eqb c LF) eqn:Ec.
  - apply Ascii.eqb_eq in Ec. subst c.
    apply andb_false_iff in H. destruct H as [H|H].
    + apply Nat.ltb_ge in H. assert (r = 2) by lia. subst r.
      exists "", s. reflexivity.
    + destruct r as [|[|r]].
      * apply (IH 1); [lia|exact H].
      * apply (IH 2); [lia|exact H].
      * exists "", s. assert (r = 0) by lia. subst r. reflexivity.
  - pose proof (IH 0 ltac:(lia) H) as Ho. simpl in Ho.
    apply (Occurs_extend _ _ (repeat nl r ++ String c "")) in Ho.
    now rewrite append_assoc in Ho.
Qed.

(** X5.  [compact()] renders a text with no three newlines in a row that
    ends with a newline; compacting twice renders what compacting once
    renders; and a text that is already compact and closed by a newline is
    rendered unchanged. *)
Theorem compact_collapses_blank_lines (this : ProseWriter) :
  ~ Occurs (nl ++ nl ++ nl) (toString (Writer.compact this)) /\
  EndsWith (toString (Writer.compact this)) nl /\
  toString (Writer.compact (Writer.compact this))
    = toString (Writer.compact this) /\
  (~ Occurs (nl ++ nl ++ nl) (toString this) /\ EndsWith (toString this) nl ->
   toString (Writer.compact this) = toString this) /\
  safeMode (Writer.compact this) = safeMode this.
Proof.
  unfold Writer.compact. rewrite !toString_seeded.
  set (t := collapseNewlines 0 (toString this)).
  assert (Hok : noThirdNewline 0 (withNewline t) = true)
    by (apply withNewline_ok, collapseNewlines_ok).
  split; [now apply (noThirdNewline_no_triple _ 0)|].
  split; [apply withNewline_ends|].
  split; [|split; [|reflexivity]].
  - rewrite (collapseNewlines_fixed _ 0 Hok).
    apply withNewline_closed, withNewline_ends.
  - intros [Hno Hend]. unfold t.
    assert (Hs : noThirdNewline 0 (toString this) = true).
    { destruct (noThirdNewline 0 (toString this)) eqn:E; [reflexivity|].
      exfalso. apply Hno.
      exact (third_newline_occurs (toString this) 0 ltac:(lia) E). }
    rewrite (collapseNewlines_fixed _ 0 Hs). now apply withNewline_closed.
Qed.

Lemma compact_collapses_blank_lines_witness :
  toString (Writer.compact (buildWrite false [VString "a"]))
    = toString (buildWrite false [VString "a"]).
Proof.
  apply (proj1 (proj2 (proj2 (proj2
           (compact_collapses_blank_lines (buildWrite false [VString "a"])))))).
  split.
  - apply (noThirdNewline_no_triple _ 0). reflexivity.
  - now exists "a".
Defined.

Lemma trimEnd_length (x : string) : String.length (trimEnd x) <= String.length x.
Proof.
  induction x as [|c x IH]; simpl; [lia|].
  destruct (isWhiteSpace c && String.eqb (trimEnd x) ""); simpl; lia.
Qed.

Lemma trimStart_fixed (t : string) :
  headIs isWhiteSpace t = false -> trimStart t = t.
Proof. destruct t as [|c t]; simpl; [reflexivity|]. now intros ->. Qed.

Lemma trim_not_closed (s : string) : endsWith (trim s) nl = false.
Proof.
  apply endsWith_false. intros [pre E].
  destruct (trim_no_edge_whitespace s) as [_ H].
  unfold endsWithWhiteSpace in H. apply negb_false_iff, String.eqb_eq in H.
  rewrite E, trimEnd_app_nl in H.
  pose proof (trimEnd_length pre) as L. rewrite H, length_append in L.
  simpl in L. lia.
Qed.

Lemma trim_closed_again (s : string) : trim (trim s ++ nl) = trim s.
Proof.
  destruct (trim_no_edge_whitespace s) as [Hh He].
  unfold endsWithWhiteSpace in He. apply negb_false_iff, String.eqb_eq in He.
  unfold trim at 1. rewrite trimEnd_app_nl, He. now apply trimStart_fixed.
Qed.

(** X6.  [trim()] renders the trimmed text followed by one newline (a
    single newline for a writer whose text is empty or blank); the text
    before that newline has no whitespace at either end; trimming twice
    renders what trimming once renders. *)
Theorem trim_renders_trimmed_line (this : ProseWriter) :
  toString (Writer.trim this) = trim (toString this) ++ nl /\
  headIs isWhiteSpace (trim (toString this)) = false /\
  endsWithWhiteSpace (trim (toString this)) = false /\
  toString (Writer.trim (Writer.trim this)) = toString (Writer.trim this) /\
  safeMode (Writer.trim this) = safeMode this.
Proof.
  assert (E : forall w, toString (Writer.trim w) = trim (toString w) ++ nl).
  { intros w. unfold Writer.trim. rewrite toString_seeded. unfold withNewline.
    now rewrite trim_not_closed. }
  split; [apply E|].
  destruct (trim_no_edge_whitespace (toString this)) as [Hh He].
  repeat split; try assumption.
  rewrite (E (Writer.trim this)), (E this). now rewrite trim_closed_again.
Qed.

(* ================================================================= *)
(** ** [fill] *)

Lemma dropChars_nil (k : nat) : dropChars k "" = "".
Proof. destruct k; reflexivity. Qed.

Lemma dropChars_app (a b : string) (k : nat) :
  dropChars (String.length a + k) (a ++ b) = dropChars k b.
Proof. induction a as [|c a IH]; simpl; auto. Qed.

Lemma dropChars_length (s : string) :
  forall k, String.length (dropChars k s) <= String.length s.
Proof.
  induction s as [|c s IH]; intros [|k]; simpl; try lia.
  specialize (IH k). lia.
Qed.

Lemma replacePlaceholders_skip (variables : Variables) (s : string) :
  forall k, replacePlaceholders variables k s
            = replacePlaceholders variables 0 (dropChars k s).
Proof.
  induction s as [|c s IH]; intros [|k]; try reflexivity.
  cbn [replacePlaceholders dropChars]. apply IH.
Qed.

Lemma placeholderAt_spec (s key : string) :
  placeholderAt s = Some key ->
  s = "{{" ++ key ++ "}}" ++ dropChars (String.length key + 4) s.
Proof.
  unfold placeholderAt, startsWith.
  destruct (String.prefix "{{" s) eqn:Ep; [|discriminate].
  apply prefix_spec in Ep. destruct Ep as [rest ->].
  replace (substring 2 (String.length ("{{" ++ rest) - 2) ("{{" ++ rest))
    with rest.
  2:{ change 2 with (String.length "{{" + 0) at 1.
      rewrite substring_skip. rewrite length_append. simpl.
      rewrite Nat.sub_0_r. symmetry. apply substring_whole. }
  destruct (spanClass_split isWordChar rest) as [E _].
  destruct (spanClass isWordChar rest) as [run after]. simpl in E.
  destruct (Nat.leb 1 (String.length run) && String.prefix "}}" after) eqn:Ec;
    [|discriminate].
  intros H. injection H as <-.
  apply andb_true_iff in Ec. destruct Ec as [_ Ea].
  apply prefix_spec in Ea. destruct Ea as [tail ->]. subst rest.
  do 2 f_equal. f_equal.
  replace (String.length run + 4) with (String.length ("{{" ++ run ++ "}}") + 0).
  2:{ rewrite !length_append. simpl. lia. }
  replace ("{{" ++ run ++ "}}" ++ tail) with (("{{" ++ run ++ "}}") ++ tail)
    by now rewrite !append_assoc.
  now rewrite dropChars_app.
Qed.

Lemma placeholderAt_intro (key post : string) :
  key <> "" -> allChars isWordChar key = true ->
  placeholderAt ("{{" ++ key ++ "}}" ++ post) = Some key.
Proof.
  intros Hne Hw. unfold placeholderAt.
  assert (Es : startsWith ("{{" ++ key ++ "}}" ++ post) "{{" = true).
  { apply prefix_spec. now exists (key ++ "}}" ++ post). }
  rewrite Es.
  replace (substring 2 (String.length ("{{" ++ key ++ "}}" ++ post) - 2)
             ("{{" ++ key ++ "}}" ++ post))
    with (key ++ "}}" ++ post).
  2:{ change 2 with (String.length "{{" + 0) at 1.
      rewrite substring_skip. rewrite length_append. simpl.
      rewrite Nat.sub_0_r. symmetry. apply substring_whole. }
  rewrite (spanClass_run isWordChar key ("}}" ++ post) Hw eq_refl).
  assert (Ee : startsWith ("}}" ++ post) "}}" = true).
  { apply prefix_spec. now exists post. }
  rewrite Ee. destruct key; [congruence|]. reflexivity.
Qed.

Lemma placeholderAt_other (c : ascii) (s : string) :
  Ascii.eqb c "{" = false -> placeholderAt (String c s) = None.
Proof.
  intros H. unfold placeholderAt, startsWith.
  destruct (String.prefix "{{" (String c s)) eqn:E; [|reflexivity].
  apply prefix_spec in E. destruct E as [r E]. injection E as E _.
  subst c. discriminate.
Qed.

Lemma Occurs_occursb (sub s : string) : Occurs sub s -> occursb sub s = true.
Proof.
  intros [before [after ->]]. induction before as [|c before IH].
  - assert (H : String.prefix sub (sub ++ after) = true)
      by (apply prefix_spec; now exists after).
    change ("" ++ sub ++ after) with (sub ++ after).
    destruct (sub ++ after); simpl; simpl in H; now rewrite H.
  - change (String c before ++ sub ++ after)
      with (String c (before ++ sub ++ after)).
    cbn [occursb]. rewrite IH. apply orb_true_r.
Qed.

Lemma Occurs_later (sub before s : string) :
  Occurs sub s -> Occurs sub (before ++ s).
Proof.
  intros [b [a ->]]. exists (before ++ b), a. now rewrite !append_assoc.
Qed.

Lemma replacePlaceholders_unread (variables : Variables) :
  forall n s,
    String.length s <= n ->
    (forall key, Occurs ("{{" ++ key ++ "}}") s ->
                 getProperty variables key = None) ->
    replacePlaceholders variables 0 s = s.
Proof.
  induction n as [|n IH]; intros s Hn Hv.
  - destruct s; [reflexivity|simpl in Hn; lia].
  - destruct s as [|c s]; [reflexivity|].
    cbn [replacePlaceholders].
    destruct (placeholderAt (String c s)) as [key|] eqn:Ep.
    + pose proof (placeholderAt_spec _ _ Ep) as E.
      replace (String.length key + 4) with (S (String.length key + 3)) in E
        by lia.
      cbn [dropChars] in E.
      assert (Hk : getProperty variables key = None).
      { apply Hv. exists "", (dropChars (String.length key + 3) s).
        rewrite E at 1. now rewrite !append_assoc. }
      rewrite Hk, replacePlaceholders_skip.
      rewrite IH.
      * rewrite E at 1. now rewrite !append_assoc.
      * pose proof (dropChars_length s (String.length key + 3)).
        simpl in Hn. lia.
      * intros key' Ho. apply Hv. rewrite E.
        replace ("{{" ++ key ++ "}}" ++ dropChars (String.length key + 3) s)
          with (("{{" ++ key ++ "}}") ++ dropChars (String.length key + 3) s)
          by now rewrite !append_assoc.
        now apply Occurs_later.
    + f_equal. apply IH; [simpl in Hn; lia|].
      intros key Ho. apply Hv.
      now apply (Occurs_later _ (String c "")).
Qed.

Lemma getProperty_none (variables : Variables) (key : string) :
  own variables key = None -> inherited variables key = None ->
  getProperty variables key = None.
Proof. intros Ho Hi. unfold getProperty. now rewrite Ho. Qed.

Lemma replacePlaceholders_first (variables : Variables)
  (key post : string) :
  key <> "" -> allChars isWordChar key = true ->
  forall pre,
    allChars (fun c => negb (Ascii.eqb c "{")) pre = true ->
    replacePlaceholders variables 0 (pre ++ "{{" ++ key ++ "}}" ++ post)
    = pre
        ++ match getProperty variables key with
           | Some value => value
           | None => "{{" ++ key ++ "}}"
           end
        ++ replacePlaceholders variables 0 post.
Proof.
  intros Hne Hw. induction pre as [|c pre IH]; intros Hpre.
  - change ("" ++ "{{" ++ key ++ "}}" ++ post)
      with (String "{" ("{" ++ key ++ "}}" ++ post)).
    cbn [replacePlaceholders].
    change (String "{" ("{" ++ key ++ "}}" ++ post))
      with ("{{" ++ key ++ "}}" ++ post).
    rewrite (placeholderAt_intro key post Hne Hw), replacePlaceholders_skip.
    replace (String.length key + 3) with (String.length ("{" ++ key ++ "}}") + 0).
    2:{ rewrite !length_append. simpl. lia. }
    replace ("{" ++ key ++ "}}" ++ post) with (("{" ++ key ++ "}}") ++ post)
      by now rewrite !append_assoc.
    rewrite dropChars_app. reflexivity.
  - simpl in Hpre. apply andb_true_iff in Hpre. destruct Hpre as [Hc Hpre].
    apply negb_true_iff in Hc.
    change ((String c pre) ++ "{{" ++ key ++ "}}" ++ post)
      with (String c (pre ++ "{{" ++ key ++ "}}" ++ post)).
    cbn [replacePlaceholders]. rewrite (placeholderAt_other c _ Hc).
    rewrite (IH Hpre). reflexivity.
Qed.

(** X7.  [fill] replaces the first placeholder of the text, a non-empty
    key of word characters between double braces, by what the property
    read [variables[key]] gives: the own property of that name, else the
    property the object inherits (for an object literal one of
    [Object.prototype], such as [constructor], as text), and only when
    there is neither is the placeholder left as it is.  The text before
    it is kept and the value is not scanned again.  The result is a fresh
    writer that is never in safe mode. *)
Theorem fill_replaces_placeholder (variables : Variables)
  (pre key post : string) (this : ProseWriter) :
  toString this = pre ++ "{{" ++ key ++ "}}" ++ post ->
  allChars (fun c => negb (Ascii.eqb c "{")) pre = true ->
  key <> "" -> allChars isWordChar key = true ->
  toString (Writer.fill variables this)
    = withNewline
        (pre
           ++ match own variables key, inherited variables key with
              | Some value, _ => value
              | None, Some text => text
              | None, None => "{{" ++ key ++ "}}"
              end
           ++ replacePlaceholders variables 0 post)
  /\ safeMode (Writer.fill variables this) = false.
Proof.
  intros Ht Hpre Hne Hw. unfold Writer.fill. rewrite toString_seeded, Ht.
  rewrite (replacePlaceholders_first variables key post Hne Hw pre Hpre).
  unfold getProperty.
  destruct (own variables key), (inherited variables key); now split.
Qed.

Lemma fill_replaces_placeholder_witness :
  let variables :=
    mkVariables
      (fun key => if String.eqb key "name" then Some "{{x}}" else None)
      (fun key =>
         if String.eqb key "constructor"
         then Some "function Object() { [native code] }" else None) in
  toString
    (Writer.fill variables
       (buildWrite false [VString "{{constructor}} {{name}}!"]))
  = "function Object() { [native code] } {{x}}!" ++ nl.
Proof.
  intros variables.
  exact (proj1 (fill_replaces_placeholder variables
                  "" "constructor" (" {{name}}!" ++ nl)
                  (buildWrite false [VString "{{constructor}} {{name}}!"])
                  eq_refl eq_refl ltac:(discriminate) eq_refl)).
Defined.

(** X8.  [fill] renders the text of the writer unchanged, closed by a
    newline when it has none, when the variables have neither an own nor
    an inherited property for any key that stands between double braces
    in the text.  So an object literal without own properties leaves
    every placeholder as it is except those that name a property of
    [Object.prototype]. *)
Theorem fill_without_variables (variables : Variables) (this : ProseWriter) :
  (forall key,
     Occurs ("{{" ++ key ++ "}}") (toString this) ->
     own variables key = None /\ inherited variables key = None) ->
  toString (Writer.fill variables this) = withNewline (toString this).
Proof.
  intros Hv. unfold Writer.fill. rewrite toString_seeded.
  rewrite (replacePlaceholders_unread variables _ _ (le_n _)); [reflexivity|].
  intros key Ho. destruct (Hv key Ho) as [H1 H2].
  now apply getProperty_none.
Qed.

Lemma fill_without_variables_witness :
  let variables :=
    mkVariables (fun _ => None)
      (fun key =>
         if String.eqb key "constructor"
         then Some "function Object() { [native code] }" else None) in
  toString (Writer.fill variables (buildWrite false [VString "{{a}} {{b"]))
  = "{{a}} {{b" ++ nl.
Proof.
  intros variables.
  apply (fill_without_variables variables
           (buildWrite false [VString "{{a}} {{b"])).
  intros key Ho. split; [reflexivity|].
  unfold variables. cbn [inherited].
  destruct (String.eqb key "constructor") eqn:E; [|reflexivity].
  apply String.eqb_eq in E. subst key.
  apply Occurs_occursb in Ho. discriminate Ho.
Defined.

(* ================================================================= *)
(** ** What escaping leaves in the text *)

Lemma allChars_app (P : ascii -> bool) (a b : string) :
  allChars P (a ++ b) = allChars P a && allChars P b.
Proof.
  induction a as [|c a IH]; simpl; [reflexivity|].
  now rewrite IH, andb_assoc.
Qed.

Lemma allChars_replaceAll (P : ascii -> bool) (c : ascii) (rep s : string) :
  allChars P rep = true ->
  allChars (fun a => P a || Ascii.eqb a c) s = true ->
  allChars P (replaceAll c rep s) = true.
Proof.
  intros Hrep. induction s as [|a s IH]; simpl; [reflexivity|].
  rewrite andb_true_iff. intros [Ha Hs].
  destruct (Ascii.eqb a c) eqn:E.
  - rewrite allChars_app, Hrep. now apply IH.
  - simpl. rewrite orb_false_r in Ha. rewrite Ha. now apply IH.
Qed.

Lemma allChars_weaken (P Q : ascii -> bool) (s : string) :
  (forall c, P c = true -> Q c = true) ->
  allChars P s = true -> allChars Q s = true.
Proof.
  intros H. induction s as [|c s IH]; simpl; [reflexivity|].
  rewrite !andb_true_iff. intros [Hc Hs]. auto.
Qed.

Lemma allChars_backslashAll (P cls : ascii -> bool) (s : string) :
  P "\"%char = true -> allChars P s = true ->
  allChars P (backslashAll cls s) = true.
Proof.
  intros Hb. induction s as [|a s IH]; simpl; [reflexivity|].
  rewrite andb_true_iff. intros [Ha Hs].
  destruct (cls a); simpl; rewrite ?Hb, Ha; simpl; now apply IH.
Qed.

Lemma allChars_split_nl (P : ascii -> bool) (s : string) :
  allChars P s = true -> Forall (fun l => allChars P l = true) (split_nl s).
Proof.
  induction s as [|c s IH]; simpl; [repeat constructor|].
  rewrite andb_true_iff. intros [Hc Hs]. specialize (IH Hs).
  pose proof (split_nl_not_nil s) as Hn. revert IH Hn.
  destruct (split_nl s) as [|l ls]; intros IH Hn; [congruence|].
  inversion IH as [|? ? Hl Hls]; subst.
  destruct (Ascii.eqb c LF).
  - repeat constructor; assumption.
  - constructor; [simpl; now rewrite Hc|assumption].
Qed.

Lemma allChars_join_nl (P : ascii -> bool) (ls : list string) :
  P LF = true -> Forall (fun l => allChars P l = true) ls ->
  allChars P (join nl ls) = true.
Proof.
  intros Hn. induction 1 as [|l ls Hl Hls IH]; [reflexivity|].
  destruct ls as [|l' ls]; [exact Hl|].
  change (join nl (l :: l' :: ls)) with (l ++ nl ++ join nl (l' :: ls)).
  rewrite !allChars_app, Hl, IH. simpl. now rewrite Hn.
Qed.

Lemma spanWhiteSpace_spanClass (s : string) :
  spanWhiteSpace s = spanClass isWhiteSpace s.
Proof.
  induction s as [|c s IH]; simpl; [reflexivity|]. now rewrite IH.
Qed.

(** The result of [escapeMarkdownLineStart] is the line with one backslash
    put in, or the line itself. *)
Lemma lineStart_cases (line : string) :
  escapeMarkdownLineStart line = line \/
  exists a b, line = a ++ b /\ escapeMarkdownLineStart line = a ++ "\" ++ b.
Proof.
  unfold escapeMarkdownLineStart. rewrite spanWhiteSpace_spanClass.
  destruct (spanClass_split isWhiteSpace line) as [El _].
  destruct (spanClass isWhiteSpace line) as [ws rest]. simpl in El.
  destruct (spanClass_split isDigit rest) as [Ed _].
  destruct (spanClass (isChar "#") rest) as [hashes afterHashes].
  destruct (spanClass isDigit rest) as [digits afterDigits]. simpl in Ed.
  repeat match goal with
         | |- context [if ?b then _ else _] => destruct b
         end; auto; right.
  - now exists ws, rest.
  - now exists ws, rest.
  - now exists ws, rest.
  - exists (ws ++ digits), afterDigits. subst. now rewrite !append_assoc.
Qed.

Lemma allChars_lineStart (P : ascii -> bool) (line : string) :
  P "\"%char = true -> allChars P line = true ->
  allChars P (escapeMarkdownLineStart line) = true.
Proof.
  intros Hb H. destruct (lineStart_cases line) as [-> | [a [b [E ->]]]];
    [exact H|].
  subst line. rewrite allChars_app in H. apply andb_true_iff in H.
  destruct H as [Ha Hb']. rewrite !allChars_app, Ha, Hb'. simpl. now rewrite Hb.
Qed.

Lemma allChars_escapeXmlText (P : ascii -> bool) (value : string) :
  allChars P "&amp;" = true -> allChars P "&lt;" = true ->
  allChars P "&gt;" = true ->
  allChars (fun a => P a || inClass "&<>" a) value = true ->
  allChars P (escapeXmlText value) = true.
Proof.
  intros Ha Hl Hg H. unfold escapeXmlText.
  apply allChars_replaceAll; [exact Hg|].
  apply allChars_replaceAll.
  { eapply allChars_weaken; [|exact Hl]. intros c Hc. now rewrite Hc. }
  apply allChars_replaceAll.
  { eapply allChars_weaken; [|exact Ha]. intros c Hc. now rewrite Hc. }
  eapply allChars_weaken; [|exact H]. intros c. unfold inClass. simpl.
  rewrite !orb_false_r.
  destruct (P c), (Ascii.eqb c "&"), (Ascii.eqb c "<"), (Ascii.eqb c ">");
    simpl; auto.
Qed.

Lemma allChars_escapeMarkdownText (P : ascii -> bool) (value : string) :
  allChars P "&amp;" = true -> allChars P "&lt;" = true ->
  allChars P "&gt;" = true -> allChars P "\[" = true ->
  allChars P "\]" = true -> P LF = true ->
  allChars (fun a => P a || inClass "&<>" a) value = true ->
  allChars P (escapeMarkdownText value) = true.
Proof.
  intros Ha Hl Hg Ho Hc Hn H.
  assert (Hb : P "\"%char = true).
  { simpl in Ho. now apply andb_true_iff in Ho. }
  unfold escapeMarkdownText. apply allChars_join_nl; [exact Hn|].
  apply Forall_map.
  eapply Forall_impl;
    [intros l Hl'; apply allChars_lineStart; [exact Hb|exact Hl']|].
  apply allChars_split_nl.
  apply allChars_replaceAll; [exact Hc|].
  apply allChars_replaceAll.
  { eapply allChars_weaken; [|exact Ho]. intros c E. now rewrite E. }
  apply (allChars_weaken P); [intros c E; now rewrite E|].
  apply allChars_backslashAll; [exact Hb|].
  now apply allChars_escapeXmlText.
Qed.

(** X9.  Text escaped for safe mode holds neither [<] nor [>]: not after
    [escapeXmlText], not after [escapeMarkdownText], and so not in what a
    safe writer renders for a plain string. *)
Theorem escaped_text_has_no_angle_brackets (value : string) :
  allChars notAngle (escapeXmlText value) = true /\
  allChars notAngle (escapeMarkdownText value) = true /\
  allChars notAngle (toString (buildWrite true [VString value])) = true.
Proof.
  assert (Hall : allChars (fun a => notAngle a || inClass "&<>" a) value = true).
  { clear. induction value as [|c s IH]; simpl; [reflexivity|].
    rewrite IH, andb_true_r. unfold notAngle, inClass. simpl.
    destruct (Ascii.eqb c "<"), (Ascii.eqb c ">"), (Ascii.eqb c "&"); reflexivity. }
  assert (Hm : allChars notAngle (escapeMarkdownText value) = true)
    by (apply allChars_escapeMarkdownText; try reflexivity; exact Hall).
  split; [apply allChars_escapeXmlText; auto|]. split; [exact Hm|].
  unfold buildWrite, write, escapeUntrusted. simpl.
  destruct (Nat.eqb (String.length (escapeMarkdownText value)) 0);
    [reflexivity|].
  unfold toString. simpl. now rewrite allChars_app, Hm.
Qed.

Lemma replaceAll_absent (c : ascii) (rep s : string) :
  allChars (fun a => negb (Ascii.eqb a c)) s = true -> replaceAll c rep s = s.
Proof.
  induction s as [|a s IH]; simpl; [reflexivity|].
  rewrite andb_true_iff, negb_true_iff. intros [-> Hs]. f_equal. now apply IH.
Qed.

Lemma backslashAll_absent (cls : ascii -> bool) (s : string) :
  allChars (fun a => negb (cls a)) s = true -> backslashAll cls s = s.
Proof.
  induction s as [|a s IH]; simpl; [reflexivity|].
  rewrite andb_true_iff, negb_true_iff. intros [-> Hs]. f_equal. now apply IH.
Qed.

Lemma join_split_nl (s : string) : join nl (split_nl s) = s.
Proof.
  induction s as [|c s IH]; [reflexivity|]. simpl.
  pose proof (split_nl_not_nil s) as Hn. revert IH Hn.
  destruct (split_nl s) as [|l ls]; intros IH Hn; [congruence|].
  destruct (Ascii.eqb c LF) eqn:E.
  - apply Ascii.eqb_eq in E. subst c.
    change (join nl ("" :: l :: ls)) with (nl ++ join nl (l :: ls)).
    now rewrite IH.
  - rewrite <- IH. destruct ls; reflexivity.
Qed.

Lemma spanClass_none (cls : ascii -> bool) (s : string) :
  headIs cls s = false -> spanClass cls s = ("", s).
Proof. destruct s as [|c s]; simpl; [reflexivity|]. now intros ->. Qed.

(** What a plain character is not. *)
Lemma plain_char (c : ascii) :
  isPlainChar c = true ->
  isChar "#" c = false /\ isChar ">" c = false /\ inClass "-+*" c = false
  /\ isDigit c = false /\ inClass "&<>" c = false
  /\ inClass "\`*_~()|!" c = false /\ isChar "[" c = false
  /\ isChar "]" c = false.
Proof.
  unfold isPlainChar, inClass, isChar. simpl. rewrite andb_true_iff.
  intros [H Hd]. apply negb_true_iff in H. apply negb_true_iff in Hd.
  repeat (apply orb_false_iff in H; let E := fresh "E" in destruct H as [E H]).
  repeat split; try assumption;
    repeat (apply orb_false_iff; split); assumption.
Qed.

Lemma lineStart_plain (line : string) :
  allChars isPlainChar line = true -> escapeMarkdownLineStart line = line.
Proof.
  intros H. unfold escapeMarkdownLineStart. rewrite spanWhiteSpace_spanClass.
  destruct (spanClass_split isWhiteSpace line) as [El _].
  destruct (spanClass isWhiteSpace line) as [ws rest]. simpl in El.
  rewrite El, allChars_app in H. apply andb_true_iff in H. destruct H as [_ H].
  destruct rest as [|c rest]; [reflexivity|].
  simpl in H. apply andb_true_iff in H. destruct H as [Hc _].
  destruct (plain_char c Hc) as [H1 [H2 [H3 [H4 _]]]].
  rewrite (spanClass_none (isChar "#") (String c rest)) by exact H1.
  rewrite (spanClass_none isDigit (String c rest)) by exact H4.
  cbn [String.length Nat.leb andb headIs]. now rewrite H2, H3.
Qed.

Lemma map_fixed {A : Type} (f : A -> A) (l : list A) :
  Forall (fun x => f x = x) l -> map f l = l.
Proof. induction 1 as [|x l Hx _ IH]; simpl; congruence. Qed.

(** X11.  Ordinary prose is left alone by safe mode: a text without markup
    punctuation, block markers and digits is its own escaped form, and a
    safe writer renders it as a plain writer does. *)
Theorem plain_text_is_not_changed (value : string) :
  allChars isPlainChar value = true ->
  escapeMarkdownText value = value /\
  toString (buildWrite true [VString value])
    = toString (buildWrite false [VString value]).
Proof.
  intros H.
  assert (E : escapeMarkdownText value = value).
  { unfold escapeMarkdownText, escapeXmlText.
    assert (Hno : forall cls,
               (forall c, isPlainChar c = true -> cls c = false) ->
               allChars (fun a => negb (cls a)) value = true).
    { intros cls Hcls. eapply allChars_weaken; [|exact H].
      intros c Hc. now rewrite (Hcls c Hc). }
    rewrite (replaceAll_absent "&" "&amp;" value).
    2:{ apply (Hno (isChar "&")). intros c Hc.
        destruct (plain_char c Hc) as [_ [_ [_ [_ [Hx' _]]]]].
        unfold inClass in Hx'. simpl in Hx'. unfold isChar.
        now destruct (Ascii.eqb c "&"). }
    rewrite (replaceAll_absent "<" "&lt;" value).
    2:{ apply (Hno (isChar "<")). intros c Hc.
        destruct (plain_char c Hc) as [_ [_ [_ [_ [Hx' _]]]]].
        unfold inClass in Hx'. simpl in Hx'. unfold isChar.
        destruct (Ascii.eqb c "<"); [|reflexivity].
        now rewrite orb_true_r in Hx'. }
    rewrite (replaceAll_absent ">" "&gt;" value).
    2:{ apply (Hno (isChar ">")). intros c Hc.
        now destruct (plain_char c Hc) as [_ [Hx' _]]. }
    rewrite (backslashAll_absent _ value).
    2:{ apply Hno. intros c Hc.
        now destruct (plain_char c Hc) as [_ [_ [_ [_ [_ [Hx' _]]]]]]. }
    rewrite (replaceAll_absent "[" "\[" value).
    2:{ apply (Hno (isChar "[")). intros c Hc.
        now destruct (plain_char c Hc) as [_ [_ [_ [_ [_ [_ [Hx' _]]]]]]]. }
    rewrite (replaceAll_absent "]" "\]" value).
    2:{ apply (Hno (isChar "]")). intros c Hc.
        now destruct (plain_char c Hc) as [_ [_ [_ [_ [_ [_ [_ Hx']]]]]]]. }
    rewrite map_fixed; [apply join_split_nl|].
    eapply Forall_impl; [|apply (allChars_split_nl isPlainChar value H)].
    intros l Hl. now apply lineStart_plain. }
  split; [exact E|].
  unfold buildWrite, write, escapeUntrusted. simpl. rewrite E.
  destruct (Nat.eqb (String.length value) 0); reflexivity.
Qed.

Lemma plain_text_is_not_changed_witness :
  escapeMarkdownText "Hello, world. How are you?"
    = "Hello, world. How are you?".
Proof.
  exact (proj1 (plain_text_is_not_changed "Hello, world. How are you?" eq_refl)).
Defined.

(* ================================================================= *)
(** ** Every markup character is escaped *)

Section Escaped.

Variables taken special : ascii -> bool.

(** Induction along the way [escaped] reads a string. *)
Lemma escaped_ind (Q : string -> Prop) :
  Q "" ->
  (forall d s, taken d = true -> escaped taken special s = true -> Q s ->
               Q (String "\" (String d s))) ->
  (forall c s, Ascii.eqb c "\" = false -> special c = false ->
               escaped taken special s = true -> Q s -> Q (String c s)) ->
  forall s, escaped taken special s = true -> Q s.
Proof.
  intros H0 Hpair Hraw.
  assert (H : forall n s, String.length s <= n ->
                          escaped taken special s = true -> Q s).
  { induction n as [|n IH]; intros s Hn He.
    - destruct s; [exact H0|simpl in Hn; lia].
    - destruct s as [|c s]; [exact H0|]. simpl in He, Hn.
      destruct (Ascii.eqb c "\") eqn:Ec.
      + apply Ascii.eqb_eq in Ec. subst c.
        destruct s as [|d s]; [discriminate|].
        apply andb_true_iff in He. destruct He as [Hd He].
        apply Hpair; [exact Hd|exact He|]. apply IH; [simpl in Hn; lia|exact He].
      + apply andb_true_iff in He. destruct He as [Hc He].
        apply negb_true_iff in Hc.
        apply Hraw; [exact Ec|exact Hc|exact He|]. apply IH; [lia|exact He]. }
  intros s. apply (H (String.length s)). lia.
Qed.

Lemma escaped_raw (c : ascii) (s : string) :
  Ascii.eqb c "\" = false ->
  escaped taken special (String c s)
  = negb (special c) && escaped taken special s.
Proof. intros H. simpl. now rewrite H. Qed.

Lemma escaped_app (a b : string) :
  escaped taken special a = true ->
  escaped taken special (a ++ b) = escaped taken special b.
Proof.
  revert a. apply escaped_ind.
  - reflexivity.
  - intros d s Hd _ IH. simpl. now rewrite Hd, IH.
  - intros c s Hc Hs _ IH.
    change (String c s ++ b) with (String c (s ++ b)).
    now rewrite (escaped_raw c _ Hc), Hs, IH.
Qed.

Lemma escaped_split_nl (s : string) :
  taken LF = false -> escaped taken special s = true ->
  Forall (fun l => escaped taken special l = true) (split_nl s).
Proof.
  intros Hn. revert s. apply escaped_ind.
  - repeat constructor.
  - intros d s Hd He IH.
    assert (Ed : Ascii.eqb d LF = false).
    { destruct (Ascii.eqb d LF) eqn:E; [|reflexivity].
      apply Ascii.eqb_eq in E. subst d. congruence. }
    cbn [split_nl]. pose proof (split_nl_not_nil s) as Hs. revert IH Hs.
    destruct (split_nl s) as [|l ls]; intros IH Hs; [congruence|].
    rewrite Ed. change (Ascii.eqb "\" LF) with false. cbn iota.
    inversion IH as [|? ? Hl Hls]; subst. constructor; [|exact Hls].
    simpl. now rewrite Hd, Hl.
  - intros c s Hc Hsp He IH.
    cbn [split_nl]. pose proof (split_nl_not_nil s) as Hs. revert IH Hs.
    destruct (split_nl s) as [|l ls]; intros IH Hs; [congruence|].
    inversion IH as [|? ? Hl Hls]; subst.
    destruct (Ascii.eqb c LF).
    + constructor; [reflexivity|exact IH].
    + constructor; [|exact Hls]. now rewrite (escaped_raw c _ Hc), Hsp, Hl.
Qed.

Lemma escaped_join_nl (ls : list string) :
  special LF = false ->
  Forall (fun l => escaped taken special l = true) ls ->
  escaped taken special (join nl ls) = true.
Proof.
  intros Hn. induction 1 as [|l ls Hl Hls IH]; [reflexivity|].
  destruct ls as [|l' ls]; [exact Hl|].
  change (join nl (l :: l' :: ls)) with (l ++ nl ++ join nl (l' :: ls)).
  rewrite (escaped_app l _ Hl).
  change (nl ++ join nl (l' :: ls)) with (String LF (join nl (l' :: ls))).
  rewrite escaped_raw by reflexivity. now rewrite Hn, IH.
Qed.

Lemma escaped_plain_prefix (a b : string) :
  allChars (fun c => negb (Ascii.eqb c "\")) a = true ->
  escaped taken special (a ++ b)
  = allChars (fun c => negb (special c)) a && escaped taken special b.
Proof.
  induction a as [|c a IH]; simpl; [reflexivity|].
  rewrite andb_true_iff, negb_true_iff. intros [Hc Ha].
  now rewrite Hc, (IH Ha), andb_assoc.
Qed.

End Escaped.

Lemma escaped_mono (T T' S S' : ascii -> bool) (s : string) :
  (forall c, T c = true -> T' c = true) ->
  (forall c, S c = false -> S' c = false) ->
  escaped T S s = true -> escaped T' S' s = true.
Proof.
  intros HT HS. revert s. apply escaped_ind.
  - reflexivity.
  - intros d s Hd _ IH. simpl. now rewrite (HT d Hd), IH.
  - intros c s Hc Hs _ IH. now rewrite (escaped_raw _ _ c s Hc), (HS c Hs), IH.
Qed.

Lemma escaped_backslashAll (cls : ascii -> bool) (s : string) :
  allChars (fun c => negb (Ascii.eqb c "\") || cls c) s = true ->
  escaped cls cls (backslashAll cls s) = true.
Proof.
  induction s as [|a s IH]; simpl; [reflexivity|].
  rewrite andb_true_iff. intros [Ha Hs]. destruct (cls a) eqn:Ec.
  - simpl. now rewrite Ec, (IH Hs).
  - rewrite orb_false_r in Ha. apply negb_true_iff in Ha.
    now rewrite (escaped_raw _ _ a _ Ha), Ec, (IH Hs).
Qed.

Lemma escaped_replaceAll (T S : ascii -> bool) (c : ascii) (s : string) :
  T c = false -> Ascii.eqb c "\" = false ->
  escaped T S s = true ->
  escaped (fun a => T a || Ascii.eqb a c) (fun a => S a || Ascii.eqb a c)
    (replaceAll c (String "\" (String c "")) s) = true.
Proof.
  intros HT Hc. revert s. apply escaped_ind.
  - reflexivity.
  - intros d s Hd _ IH.
    assert (Ed : Ascii.eqb d c = false).
    { destruct (Ascii.eqb d c) eqn:E; [|reflexivity].
      apply Ascii.eqb_eq in E. subst d. congruence. }
    cbn [replaceAll]. rewrite Ascii.eqb_sym, Hc, Ed. simpl.
    now rewrite Hd, IH.
  - intros a s Ha Hs _ IH. cbn [replaceAll].
    destruct (Ascii.eqb a c) eqn:E.
    + simpl. rewrite Ascii.eqb_refl, orb_true_r. exact IH.
    + rewrite escaped_raw by exact Ha. now rewrite Hs, E, IH.
Qed.

(** Where [escapeMarkdownLineStart] puts its backslash: after white space
    and digits only, and before a character that is no backslash. *)
Lemma lineStart_shape (line : string) :
  escapeMarkdownLineStart line = line \/
  exists a m b,
    line = a ++ String m b /\
    allChars (fun c => isWhiteSpace c || isDigit c) a = true /\
    Ascii.eqb m "\" = false /\
    escapeMarkdownLineStart line = a ++ String "\" (String m b).
Proof.
  unfold escapeMarkdownLineStart. rewrite spanWhiteSpace_spanClass.
  destruct (spanClass_split isWhiteSpace line) as [El [Hws _]].
  destruct (spanClass isWhiteSpace line) as [ws rest]. simpl in El, Hws.
  destruct (spanClass_split isDigit rest) as [Ed [Hdig _]].
  destruct (spanClass_split (isChar "#") rest) as [Eh [Hh _]].
  destruct (spanClass (isChar "#") rest) as [hashes afterHashes].
  destruct (spanClass isDigit rest) as [digits afterDigits].
  simpl in Ed, Hdig, Eh, Hh.
  assert (Hw : allChars (fun c => isWhiteSpace c || isDigit c) ws = true).
  { eapply allChars_weaken; [|exact Hws]. intros c E. now rewrite E. }
  assert (Head : forall cls, (forall c, cls c = true -> Ascii.eqb c "\" = false) ->
                 headIs cls rest = true ->
                 exists m b, rest = String m b /\ Ascii.eqb m "\" = false).
  { intros cls Hcls H. destruct rest as [|m b]; [discriminate|].
    exists m, b. split; [reflexivity|]. now apply Hcls. }
  assert (Hcls : forall cls : string, inClass cls "\" = false ->
                 forall c, inClass cls c = true -> Ascii.eqb c "\" = false).
  { intros cls Hb c Hc. destruct (Ascii.eqb c "\") eqn:E; [|reflexivity].
    apply Ascii.eqb_eq in E. subst c. congruence. }
  destruct (Nat.leb 1 (String.length hashes) && Nat.leb (String.length hashes) 6
            && headIs isWhiteSpace afterHashes) eqn:T1.
  { right. apply andb_true_iff in T1. destruct T1 as [T1 _].
    apply andb_true_iff in T1. destruct T1 as [T1 _].
    destruct hashes as [|h hashes]; [discriminate|].
    simpl in Hh. apply andb_true_iff in Hh. destruct Hh as [Hh _].
    apply Ascii.eqb_eq in Hh. subst h.
    exists ws, "#"%char, (hashes ++ afterHashes).
    rewrite El, Eh. repeat split; try assumption; reflexivity. }
  destruct (headIs (isChar ">") rest) eqn:T2.
  { right. destruct (Head (inClass ">") (Hcls ">" eq_refl)) as [m [b [-> Hm]]].
    { destruct rest; [discriminate|]. simpl in *. unfold inClass. simpl.
      unfold isChar in T2. now rewrite T2. }
    exists ws, m, b. subst line. repeat split; assumption. }
  destruct (headIs (inClass "-+*") rest
            && headIs isWhiteSpace (substring 1 (String.length rest - 1) rest))
    eqn:T3.
  { right. apply andb_true_iff in T3. destruct T3 as [T3 _].
    destruct (Head (inClass "-+*") (Hcls "-+*" eq_refl) T3) as [m [b [-> Hm]]].
    exists ws, m, b. subst line. repeat split; assumption. }
  destruct (Nat.leb 1 (String.length digits) && headIs (isChar ".") afterDigits
            && headIs isWhiteSpace
                 (substring 1 (String.length afterDigits - 1) afterDigits))
    eqn:T4; [|now left].
  right. apply andb_true_iff in T4. destruct T4 as [T4 _].
  apply andb_true_iff in T4. destruct T4 as [_ T4].
  destruct afterDigits as [|m b]; [discriminate|]. simpl in T4.
  apply Ascii.eqb_eq in T4. subst m.
  exists (ws ++ digits), "."%char, b. rewrite El, Ed.
  rewrite !append_assoc, allChars_app, Hw. repeat split.
  eapply allChars_weaken; [|exact Hdig]. intros c E. now rewrite E, orb_true_r.
Qed.

Lemma escaped_lineStart (T S : ascii -> bool) (line : string) :
  escaped T S line = true ->
  escaped (fun _ => true) S (escapeMarkdownLineStart line) = true.
Proof.
  intros H.
  assert (Hm : forall s, escaped T S s = true ->
                         escaped (fun _ => true) S s = true)
    by (intros s; apply escaped_mono; auto).
  destruct (lineStart_shape line) as [-> | [a [m [b [E [Ha [Hmb ->]]]]]]];
    [now apply Hm|].
  subst line.
  assert (Hp : allChars (fun c => negb (Ascii.eqb c "\")) a = true).
  { eapply allChars_weaken; [|exact Ha]. intros c Hc.
    destruct (Ascii.eqb c "\") eqn:Eb; [|reflexivity].
    apply Ascii.eqb_eq in Eb. subst c. discriminate. }
  rewrite (escaped_plain_prefix T S a _ Hp) in H.
  apply andb_true_iff in H. destruct H as [HaS H].
  rewrite (escaped_raw T S m b Hmb) in H.
  apply andb_true_iff in H. destruct H as [_ Hb].
  rewrite (escaped_plain_prefix _ S a _ Hp), HaS. simpl. now apply Hm.
Qed.

(** X10.  In the text [escapeMarkdownText] returns no markup character
    stands unescaped: read from the left, every backslash, backtick,
    asterisk, underscore, tilde, parenthesis, bar, exclamation mark and
    bracket comes straight after a backslash that escapes it. *)
Theorem markdown_punctuation_is_escaped (value : string) :
  escaped (fun _ => true) isMarkdownSpecial (escapeMarkdownText value) = true.
Proof.
  unfold escapeMarkdownText.
  set (cls := inClass "\`*_~()|!").
  set (e1 := backslashAll cls (escapeXmlText value)).
  assert (H1 : escaped cls cls e1 = true).
  { apply escaped_backslashAll. generalize (escapeXmlText value) as s.
    induction s as [|c s IH]; simpl; [reflexivity|]. rewrite IH, andb_true_r.
    destruct (Ascii.eqb c "\") eqn:E; [|reflexivity].
    apply Ascii.eqb_eq in E. now subst c. }
  pose proof (escaped_replaceAll cls cls "[" e1 eq_refl eq_refl H1) as H2.
  pose proof (escaped_replaceAll _ _ "]" _ eq_refl eq_refl H2) as H3.
  set (T3 := fun a : ascii => cls a || Ascii.eqb a "[" || Ascii.eqb a "]").
  assert (H4 : escaped T3 isMarkdownSpecial
                 (replaceAll "]" "\]" (replaceAll "[" "\[" e1)) = true).
  { eapply escaped_mono; [| |exact H3]; [auto|].
    intros c Hc. rewrite <- Hc.
    unfold isMarkdownSpecial, cls, inClass. simpl. btauto. }
  apply escaped_join_nl; [reflexivity|]. apply Forall_map.
  apply (Forall_impl _ (P := fun l => escaped T3 isMarkdownSpecial l = true));
    [intros l Hl; exact (escaped_lineStart T3 _ l Hl)|].
  apply escaped_split_nl; [reflexivity|exact H4].
Qed.

(* ================================================================= *)
(** ** Inline code fences *)

Lemma longestBackticks_lower (value : string) :
  forall cur best, Nat.max cur best <= longestBackticks value cur best.
Proof.
  induction value as [|c s IH]; intros cur best; simpl; [lia|].
  destruct (Ascii.eqb c "`").
  - specialize (IH (S cur) best). lia.
  - specialize (IH 0 (Nat.max cur best)). lia.
Qed.

Lemma longestBackticks_run (k : nat) (rest : string) :
  forall cur best,
    cur + k <= longestBackticks (repeat "`" k ++ rest) cur best.
Proof.
  induction k as [|k IH]; intros cur best.
  - pose proof (longestBackticks_lower rest cur best). simpl. lia.
  - cbn [repeat]. rewrite append_assoc.
    change ("`" ++ repeat "`" k ++ rest) with (String "`" (repeat "`" k ++ rest)).
    cbn [longestBackticks]. rewrite Ascii.eqb_refl.
    specialize (IH (S cur) best). lia.
Qed.

Lemma longestBackticks_occurs (k : nat) (before after : string) :
  forall cur best,
    k <= longestBackticks (before ++ repeat "`" k ++ after) cur best.
Proof.
  induction before as [|c s IH]; intros cur best.
  - pose proof (longestBackticks_run k after cur best). simpl in *. lia.
  - change (String c s ++ repeat "`" k ++ after)
      with (String c (s ++ repeat "`" k ++ after)).
    cbn [longestBackticks]. destruct (Ascii.eqb c "`"); apply IH.
Qed.

(** X12.  The fence [wrapInlineCode] puts around a value is a run of
    backticks that does not occur in the value, so the value cannot close
    it; the value stands between the two fences as it is, or between two
    spaces when it starts or ends with white space. *)
Theorem inline_code_fence_is_not_in_value (value : string) :
  let fence := repeat "`" (longestBackticks value 0 0 + 1) in
  ~ Occurs fence value /\
  wrapInlineCode value
    = fence
        ++ (if headIs isWhiteSpace value || endsWithWhiteSpace value
            then " " ++ value ++ " " else value)
        ++ fence /\
  jsString (safeInlineCode (VString value)) = wrapInlineCode value.
Proof.
  intros fence. split; [|split; reflexivity].
  intros [before [after E]].
  pose proof (longestBackticks_occurs (longestBackticks value 0 0 + 1)
                before after 0 0) as H.
  unfold fence in E. rewrite <- E in H. lia.
Qed.

(* ================================================================= *)
(** ** The characters of a link destination *)

Lemma encodeChar_chars (c : ascii) :
  allChars (fun a => uriKeep a || isChar "%" a) (encodeChar c) = true.
Proof. destruct c as [[] [] [] [] [] [] [] []]; vm_compute; reflexivity. Qed.

Lemma destinationChar_not_space (c : ascii) :
  isDestinationChar c = true -> negb (isWhiteSpace c) = true.
Proof. destruct c as [[] [] [] [] [] [] [] []]; vm_compute; auto. Qed.

Lemma encodeURI_chars (url : string) :
  allChars (fun a => uriKeep a || isChar "%" a) (encodeURI url) = true.
Proof.
  induction url as [|c s IH]; simpl; [reflexivity|].
  now rewrite allChars_app, encodeChar_chars, IH.
Qed.

Lemma escapeLinkDestination_chars (url : string) :
  allChars isDestinationChar (escapeLinkDestination url) = true /\
  escaped (inClass "()") (inClass "()") (escapeLinkDestination url) = true.
Proof.
  unfold escapeLinkDestination. split.
  - apply allChars_backslashAll; [reflexivity|].
    eapply allChars_weaken; [|apply encodeURI_chars].
    intros c H. unfold isDestinationChar. now rewrite H.
  - apply escaped_backslashAll.
    eapply allChars_weaken; [|apply encodeURI_chars].
    intros c H. destruct (Ascii.eqb c "\") eqn:E; [|reflexivity].
    apply Ascii.eqb_eq in E. subst c. discriminate.
Qed.

(** X13.  The destination [sanitizeLinkDestination] returns is made of
    the characters [encodeURI] keeps, the percent sign and the backslash
    only, so it holds no white space and no line break; every parenthesis
    in it comes straight after a backslash, and a backslash stands before
    a parenthesis only.  The destination cannot close the parentheses of
    the link it is put in. *)
Theorem link_destination_is_closed (url : string) :
  allChars isDestinationChar (sanitizeLinkDestination url) = true /\
  allChars (fun c => negb (isWhiteSpace c)) (sanitizeLinkDestination url) = true /\
  escaped (inClass "()") (inClass "()") (sanitizeLinkDestination url) = true.
Proof.
  assert (H : allChars isDestinationChar (sanitizeLinkDestination url) = true
              /\ escaped (inClass "()") (inClass "()")
                   (sanitizeLinkDestination url) = true).
  { unfold sanitizeLinkDestination.
    destruct (hasScheme _ && negb (allowedScheme _)); [split; reflexivity|].
    apply escapeLinkDestination_chars. }
  destruct H as [H1 H2]. repeat split; try assumption.
  eapply allChars_weaken; [|exact H1]. apply destinationChar_not_space.
Qed.

(* ================================================================= *)
(** ** Validation: the passing side *)

Section ValidationPassingFacts.

Variable Value : Type.
Variable JSON_parse : string -> Data Value + Thrown.
Variable JSON_stringify : Value -> string.
Variable toYamlString : Value -> string.

Lemma validateOutput_passes (format : OutputFormat) (data : Data Value)
  (options : ValidationOptions Value) :
  ValidationPasses Value JSON_parse options format data ->
  validateOutput Value JSON_parse format data options = None.
Proof.
  intros Hp. unfold validateOutput.
  destruct Hp as [format data Hv | format data validator checked Hv Hc Hr].
  - now rewrite Hv.
  - rewrite Hv.
    destruct Hc as [s v Hp | s parser v Hy Hp | s Hy | format v].
    + now rewrite Hp, Hr.
    + now rewrite Hy, Hp, Hr.
    + now rewrite Hy, Hr.
    + destruct format; now rewrite Hr.
Qed.

Lemma validation_decided (format : OutputFormat) (data : Data Value)
  (options : ValidationOptions Value) :
  ValidationPasses Value JSON_parse options format data \/
  (validate Value options <> None /\
   ValidationFails Value JSON_parse options format data).
Proof.
  destruct (validate Value options) as [validator|] eqn:Hv;
    [|left; now apply NoValidator].
  assert (Hdec : forall checked,
             Checked Value JSON_parse options format data checked ->
             ValidationPasses Value JSON_parse options format data \/
             (Some validator <> None /\
              ValidationFails Value JSON_parse options format data)).
  { intros checked Hc.
    destruct (valid (validator format checked (schema Value options))) eqn:Hr.
    - left. eapply ValidatorAccepts; eauto.
    - right. split; [discriminate|]. eapply ValidatorRejects; eauto. }
  destruct data as [s|v]; [|apply (Hdec (DValue v)); constructor].
  destruct format.
  - destruct (JSON_parse s) as [v|t] eqn:Hp.
    + apply (Hdec v). now constructor.
    + right. split; [discriminate|]. eapply JsonDoesNotParse; eauto.
  - destruct (parseYaml Value options) as [parser|] eqn:Hy.
    + destruct (parser s) as [v|t] eqn:Hp.
      * apply (Hdec v). eapply CheckedYamlString; eauto.
      * right. split; [discriminate|]. eapply YamlParserThrows; eauto.
    + apply (Hdec (DString s)). now apply CheckedYamlRaw.
Qed.

(** X14.  Validation that passes leaves no trace: [json] and [yaml]
    called with options have the outcome they have with no option at all
    exactly when validation passes (there is no validator, or the
    validator accepts the parsed or original data); and every call either
    passes or fails validation. *)
Theorem validation_passing (data : Data Value) (options : ValidationOptions Value)
  (this : ProseWriter) :
  (ValidationPasses Value JSON_parse options Json data <->
     json Value JSON_parse JSON_stringify data options this
     = json Value JSON_parse JSON_stringify data (noOptions Value) this) /\
  (ValidationPasses Value JSON_parse options Yaml data <->
     yaml Value JSON_parse toYamlString data options this
     = yaml Value JSON_parse toYamlString data (noOptions Value) this) /\
  (forall format,
     ValidationPasses Value JSON_parse options format data \/
     (validate Value options <> None /\
      ValidationFails Value JSON_parse options format data)).
Proof.
  split; [|split].
  - split.
    + intros Hp. unfold json. now rewrite (validateOutput_passes _ _ _ Hp).
    + intros E.
      destruct (validation_decided Json data options) as [Hp|[Hv Hf]];
        [exact Hp|].
      destruct (validateOutput_fails Value JSON_parse Json data options Hv Hf)
        as [e [He _]].
      unfold json in E. rewrite He in E. discriminate E.
  - split.
    + intros Hp. unfold yaml. now rewrite (validateOutput_passes _ _ _ Hp).
    + intros E.
      destruct (validation_decided Yaml data options) as [Hp|[Hv Hf]];
        [exact Hp|].
      destruct (validateOutput_fails Value JSON_parse Yaml data options Hv Hf)
        as [e [He _]].
      unfold yaml in E. rewrite He in E. discriminate E.
  - intros format. apply validation_decided.
Qed.

(** X15.  With the validator [createJsonSchemaValidator] builds from an
    adapter: YAML output is never rejected by it; JSON output is not
    rejected when no schema is given; with a schema, JSON data the
    adapter finds invalid makes [json] throw, and the error carries the
    adapter's issues (none when the adapter names none). *)
Theorem json_schema_validator_gates_json_only
  (adapter : JsonSchemaAdapter Value) (sch : option (Data Value))
  (label : option string) (v : Value) (this : ProseWriter) :
  let options :=
    mkOptions Value sch (Some (createJsonSchemaValidator Value adapter))
      label None in
  (forall data, exists w,
      yaml Value JSON_parse toYamlString data options this = Returned w) /\
  (sch = None ->
   exists w,
     json Value JSON_parse JSON_stringify (DValue v) options this = Returned w) /\
  (forall s,
     sch = Some s ->
     json Value JSON_parse JSON_stringify (DValue v) options this
     = if valid (adapter s (DValue v))
       then Returned (codeblock "json" (inl (JSON_stringify v)) this)
       else Threw (newValidationError Json
                     match issues (adapter s (DValue v)) with
                     | Some l => l
                     | None => []
                     end label) this).
Proof.
  intros options. split; [|split].
  - intros data. unfold yaml, validateOutput. simpl.
    destruct data; eexists; reflexivity.
  - intros ->. unfold json, validateOutput. simpl. eexists; reflexivity.
  - intros s ->. unfold json, validateOutput. simpl.
    destruct (valid (adapter s (DValue v))); reflexivity.
Qed.

End ValidationPassingFacts.

Lemma validation_passing_witness :
  let parse : string -> Data unit + Thrown := fun _ => inl (DValue tt) in
  let accept : OutputValidator unit := fun _ _ _ => mkResult true None in
  let options := mkOptions unit None (Some accept) None None in
  json unit parse (fun _ => "null") (DString "{}") options (newWriter false)
  = json unit parse (fun _ => "null") (DString "{}") (noOptions unit)
      (newWriter false).
Proof.
  intros parse accept options.
  apply (proj1 (proj1 (validation_passing unit parse (fun _ => "null")
                         (fun _ => "null") (DString "{}") options
                         (newWriter false)))).
  apply (ValidatorAccepts unit parse options Json (DString "{}") accept
           (DValue tt) eq_refl); [|reflexivity].
  now apply CheckedJsonString.
Defined.

Lemma json_schema_validator_gates_json_only_witness :
  let reject : JsonSchemaAdapter unit :=
    fun _ _ => mkResult false (Some [mkIssue "must be an object" (Some "$.a")]) in
  errorMessage
    (newValidationError Json [mkIssue "must be an object" (Some "$.a")] None)
    = "JSON validation failed" ++ nl ++ "1. $.a: must be an object" /\
  json unit (fun _ => inr ThrownOther) (fun _ => "1") (DValue tt)
    (mkOptions unit (Some (DValue tt))
       (Some (createJsonSchemaValidator unit reject)) None None)
    (newWriter false)
  = Threw (newValidationError Json [mkIssue "must be an object" (Some "$.a")] None)
      (newWriter false).
Proof.
  intros reject. split; [reflexivity|].
  exact (proj2 (proj2 (json_schema_validator_gates_json_only unit
                         (fun _ => inr ThrownOther) (fun _ => "1")
                         (fun _ => "1") reject (Some (DValue tt)) None tt
                         (newWriter false))) (DValue tt) eq_refl).
Defined.

(* ================================================================= *)
(** ** Embedding a schema *)

Lemma trimEnd_keeps_last (x : string) (c : ascii) :
  isWhiteSpace c = false -> trimEnd (x ++ String c "") = x ++ String c "".
Proof.
  intros Hc. induction x as [|a x IH].
  - simpl. now rewrite Hc.
  - cbn [String.append trimEnd]. rewrite IH.
    destruct (x ++ String c "") eqn:E; [destruct x; discriminate|].
    simpl. now rewrite andb_false_r.
Qed.

Lemma trimEnd_code_block (language code : string) :
  trimEnd ("```" ++ language ++ nl ++ code ++ nl ++ "```" ++ nl ++ nl)
  = "```" ++ language ++ nl ++ code ++ nl ++ "```".
Proof.
  replace ("```" ++ language ++ nl ++ code ++ nl ++ "```" ++ nl ++ nl)
    with (((("```" ++ language ++ nl ++ code ++ nl ++ "``") ++ "`") ++ nl) ++ nl)
    by (rewrite !append_assoc; reflexivity).
  rewrite !trimEnd_app_nl, trimEnd_keeps_last by reflexivity.
  rewrite !append_assoc. reflexivity.
Qed.

Section SchemaFacts.

Variable Value : Type.
Variable JSON_parse : string -> Data Value + Thrown.
Variable JSON_stringify : Value -> string.
Variable toYamlString : Value -> string.

(** X16.  [schema] validates nothing, so it throws no [ValidationError].
    For a schema value that is a string, or a value the serializer of the
    chosen format renders, it writes the heading when a title is given
    and then appends the text as a code block of that format (JSON by
    default); with a tag, that code block, without its closing blank
    line, stands between the opening and the closing tag and is not
    escaped, in either mode. *)
Theorem schema_embeds_code_block (schemaValue : Data Value)
  (options : SchemaEmbedOptions) (this : ProseWriter) :
  let format := match embedFormat options with Some f => f | None => Json end in
  let level := match embedLevel options with Some l => l | None => 2 end in
  let code :=
    match schemaValue, format with
    | DString s, _ => s
    | DValue v, Json => JSON_stringify v
    | DValue v, Yaml => toYamlString v
    end in
  let titled :=
    match truthy (embedTitle options) with
    | Some title => heading level [VString title] this
    | None => this
    end in
  schema_ Value JSON_parse JSON_stringify toYamlString schemaValue options this
  = Returned
      match truthy (embedTag options) with
      | Some name =>
          pushPadded
            ("<" ++ name ++ ">" ++ nl
               ++ "```" ++ formatName format ++ nl ++ code ++ nl ++ "```" ++ nl
               ++ "</" ++ name ++ ">" ++ nl) titled
      | None => codeblock (formatName format) (inl code) titled
      end.
Proof.
  intros format level code titled. unfold schema_.
  fold format level titled.
  destruct (truthy (embedTag options)) as [name|].
  - assert (E : forall fmt c,
               tag name
                 (inl (VWriter (codeblock fmt (inl c) (createChildWriter titled))))
                 titled
               = pushPadded
                   ("<" ++ name ++ ">" ++ nl ++ "```" ++ fmt ++ nl ++ c ++ nl
                      ++ "```" ++ nl ++ "</" ++ name ++ ">" ++ nl) titled).
    { intros fmt c. unfold tag, escapeUntrusted, toContentString.
      rewrite andb_false_r.
      change (toString (codeblock fmt (inl c) (createChildWriter titled)))
        with ("```" ++ fmt ++ nl ++ c ++ nl ++ "```" ++ nl ++ nl).
      rewrite trimEnd_code_block. now rewrite !append_assoc. }
    unfold code. destruct format; unfold json, yaml, validateOutput; simpl;
      destruct schemaValue; rewrite E; reflexivity.
  - unfold code. destruct format; unfold json, yaml, validateOutput; simpl;
      destruct schemaValue; reflexivity.
Qed.

End SchemaFacts.

(* ================================================================= *)
(** ** Estimating tokens *)

(** X17.  Without a counter [tokens] is the length of the rendered text
    divided by four and rounded up: zero for an empty text only, and never
    off by a whole token; with a counter it is what the counter gives for
    the rendered text. *)
Theorem tokens_estimate (this : ProseWriter) :
  let n := String.length (toString this) in
  n <= 4 * Writer.tokens None this /\
  4 * Writer.tokens None this < n + 4 /\
  (Writer.tokens None this = 0 <-> toString this = "") /\
  (forall count, Writer.tokens (Some count) this = count (toString this)).
Proof.
  intros n. unfold Writer.tokens. fold n.
  pose proof (Nat.div_mod_eq (n + 3) 4) as E.
  pose proof (Nat.mod_upper_bound (n + 3) 4 ltac:(lia)) as B.
  repeat split; try lia.
  - intros H. assert (n = 0) by lia. unfold n in *.
    destruct (toString this); [reflexivity|discriminate].
  - intros H. unfold n. rewrite H. reflexivity.
Qed.

(* ================================================================= *)
(** ** Iterating, and the two shapes of a list call *)

Lemma each_fold {T : Type} (builder : T -> nat -> Builder) (l : list T) :
  forall start this,
    fold_left (fun acc item => (S (fst acc), builder item (fst acc) (snd acc)))
      l (start, this)
    = (start + List.length l, eachFrom builder start l this).
Proof.
  induction l as [|x l IH]; intros start this; simpl.
  - now rewrite Nat.add_0_r.
  - rewrite IH. f_equal. lia.
Qed.

Lemma eachFrom_app {T : Type} (builder : T -> nat -> Builder) (xs ys : list T) :
  forall start this,
    eachFrom builder start (xs ++ ys)%list this
    = eachFrom builder (start + List.length xs) ys
        (eachFrom builder start xs this).
Proof.
  induction xs as [|x xs IH]; intros start this; simpl.
  - now rewrite Nat.add_0_r.
  - rewrite IH. f_equal. lia.
Qed.

Lemma eachFrom_shift {T : Type} (builder : T -> nat -> Builder) (d : nat)
  (l : list T) :
  forall start this,
    eachFrom (fun item index => builder item (d + index)) start l this
    = eachFrom builder (d + start) l this.
Proof.
  induction l as [|x l IH]; intros start this; simpl; [reflexivity|].
  rewrite IH. f_equal. lia.
Qed.

(** X18.  [each] calls the builder once for every element, in order, with
    the writer the call before has left and the position of the element
    from zero; an empty array leaves the writer as it is, and iterating
    over two arrays one after the other is iterating over their
    concatenation when the positions of the second are shifted. *)
Theorem each_visits_in_order {T : Type} (builder : T -> nat -> Builder)
  (xs ys : list T) (this : ProseWriter) :
  each xs builder this = eachFrom builder 0 xs this /\
  each [] builder this = this /\
  each (xs ++ ys)%list builder this
    = each ys (fun item index => builder item (List.length xs + index))
        (each xs builder this).
Proof.
  assert (E : forall (b : T -> nat -> Builder) l w,
             each l b w = eachFrom b 0 l w).
  { intros b l w. unfold each. now rewrite each_fold. }
  split; [apply E|]. split; [reflexivity|].
  rewrite !E, eachFrom_app, eachFrom_shift. simpl.
  now rewrite Nat.add_0_r.
Qed.

Lemma built_is_flat (l : list ListItem) :
  map (builtItem "- ") l = map (flatItem false "- ") (map itemValue l).
Proof.
  rewrite map_map. apply map_ext. intros [s|w]; reflexivity.
Qed.

Lemma numberBuilt_is_flat (l : list ListItem) :
  forall index,
    numberBuilt index l = numberFlat false index (map itemValue l).
Proof.
  induction l as [|[s|w] l IH]; intros index; simpl; [reflexivity| |];
    now rewrite IH.
Qed.

(** X19.  On a writer that is not in safe mode, a list called with a
    builder is the list called with the items the builder has collected:
    strings as strings, nested writers as nested writers.  This holds for
    [unorderedList] and for [orderedList] with its numbering. *)
Theorem builder_list_is_flat_list (f : ListCallback) (this : ProseWriter) :
  safeMode this = false ->
  let collected := map itemValue (getItems (f (createListBuilder this))) in
  unorderedList (WithBuilder f) this = unorderedList (WithItems collected) this /\
  orderedList (WithBuilder f) this = orderedList (WithItems collected) this.
Proof.
  intros Hs collected. unfold unorderedList, orderedList, collected.
  rewrite Hs, built_is_flat, numberBuilt_is_flat. split; reflexivity.
Qed.

Lemma builder_list_is_flat_list_witness :
  orderedList
    (WithBuilder (fun l => LB.item [VString "b"]
                             (LB.list_ (WithItems [VString "x"])
                                (LB.item [VString "a"] l))))
    (newWriter false)
  = orderedList
      (WithItems
         [VString "a";
          VWriter (unorderedList (WithItems [VString "x"]) (newWriter false));
          VString "b"])
      (newWriter false).
Proof.
  exact (proj2 (builder_list_is_flat_list
                  (fun l => LB.item [VString "b"]
                              (LB.list_ (WithItems [VString "x"])
                                 (LB.item [VString "a"] l)))
                  (newWriter false) eq_refl)).
Defined.

Lemma taskCalls_collect (this : ProseWriter) (args : list TaskArg) :
  forall l,
    ownerSafe l = safeMode this ->
    fold_left (fun acc arg => taskCall arg acc) args l
    = mkListBuilder (ownerSafe l)
        (items l ++ map (fun arg => LString (taskText this arg)) args)%list.
Proof.
  induction args as [|arg args IH]; intros l Hl; simpl.
  - rewrite app_nil_r. now destruct l.
  - rewrite IH.
    + destruct arg; simpl; rewrite <- app_assoc; simpl;
        unfold LB.child, createChildWriter; rewrite Hl; reflexivity.
    + destruct arg; exact Hl.
Qed.

(** X20.  [tasks] called with items is [tasks] called with a builder that
    makes one [task] call for each item, unchecked for a bare value and
    with the given state for a pair; this holds in safe mode as well. *)
Theorem flat_tasks_are_builder_tasks (args : list TaskArg)
  (this : ProseWriter) :
  tasks (WithItems args) this
  = tasks
      (WithBuilder (fun l => fold_left (fun acc arg => taskCall arg acc) args l))
      this.
Proof.
  unfold tasks, getItems.
  rewrite (taskCalls_collect this args (createListBuilder this) eq_refl).
  simpl. rewrite !map_map. reflexivity.
Qed.

(* ================================================================= *)
(** ** Callouts and joined writers *)

Lemma noLF_calloutName (type : CalloutType) :
  noLF ("> " ++ "[!" ++ calloutName type ++ "]") = true.
Proof. destruct type; reflexivity. Qed.

(** X21.  Every line of a callout is quoted: the block a callout appends
    has the line [> [!KIND]] first and then the lines of the content,
    string or built, each behind [> ]; built content is right-trimmed
    first. *)
Theorem callout_lines_are_quoted (type : CalloutType)
  (content : ContentValue + Builder) (this : ProseWriter) :
  let contentString :=
    match content with
    | inr builder => trimEnd (toString (builder (createChildWriter this)))
    | inl c => escapeUntrusted (safeMode this) c TrimNone
    end in
  exists body,
    toString (callout type content this)
      = toString this ++ fst (padding this) ++ body ++ nl ++ nl /\
    split_nl body
      = ("> [!" ++ calloutName type ++ "]")
          :: map (fun line => "> " ++ line) (split_nl contentString) /\
    Forall (fun line => startsWith line "> " = true) (split_nl body).
Proof.
  intros contentString.
  set (lines := ("[!" ++ calloutName type ++ "]") :: split_nl contentString).
  exists (join nl (map (fun line => "> " ++ line) lines)).
  assert (Hs : split_nl (join nl (map (fun line => "> " ++ line) lines))
               = map (fun line => "> " ++ line) lines).
  { apply split_nl_join; [discriminate|]. unfold lines. simpl map.
    constructor; [apply noLF_calloutName|].
    apply Forall_map. eapply Forall_impl; [|apply split_nl_noLF].
    intros l H. exact H. }
  split; [|split].
  - unfold callout. fold contentString. fold lines.
    now rewrite toString_pushPadded.
  - rewrite Hs. reflexivity.
  - rewrite Hs. apply Forall_map, Forall_forall. intros l _.
    apply prefix_spec. now exists l.
Qed.

Lemma join_parts (writers : list ProseWriter) :
  forall result,
    fold_left (fun r writer => push (toString writer) r) writers result
    = mkWriter (parts result ++ map toString writers)%list
        (skipNextPadding result) (safeMode result).
Proof.
  induction writers as [|w ws IH]; intros result; simpl.
  - rewrite app_nil_r. now destruct result.
  - rewrite IH. simpl. now rewrite <- app_assoc.
Qed.

Lemma join_empty_app (xs ys : list string) :
  join "" (xs ++ ys)%list = join "" xs ++ join "" ys.
Proof.
  induction ys as [|y ys IH] using rev_ind.
  - rewrite app_nil_r. symmetry. apply append_nil_r.
  - rewrite app_assoc, !join_empty_snoc, IH. now rewrite append_assoc.
Qed.

(** X22.  [ProseWriter.join] renders the texts of the writers one straight
    after the other, with no padding between them, in a writer that is
    not in safe mode and holds one fragment for each writer; joining two
    lists of writers renders the two joined texts in a row. *)
Theorem join_concatenates (xs ys : list ProseWriter) :
  toString (Writer.join xs) = join "" (map toString xs) /\
  List.length (parts (Writer.join xs)) = List.length xs /\
  safeMode (Writer.join xs) = false /\
  toString (Writer.join (xs ++ ys)%list)
    = toString (Writer.join xs) ++ toString (Writer.join ys).
Proof.
  assert (E : forall l, Writer.join l = mkWriter (map toString l) false false).
  { intros l. unfold Writer.join. now rewrite join_parts. }
  rewrite !E. unfold toString. simpl.
  rewrite length_map, map_app, join_empty_app. repeat split.
Qed.

(* ================================================================= *)
(** ** Paragraphs after [write], and tags in safe mode *)

Lemma write_pushes (content : list ContentValue) (this : ProseWriter) :
  join " " (map (fun c => escapeUntrusted (safeMode this) c TrimEnd) content)
    <> "" ->
  write content this
  = pushPadded
      (join " " (map (fun c => escapeUntrusted (safeMode this) c TrimEnd) content)
         ++ nl) this.
Proof.
  intros H. unfold write, pushPadded.
  destruct (join " " _) as [|c s] eqn:E; [congruence|].
  simpl. rewrite andb_false_r. destruct (padding this). reflexivity.
Qed.

(** X23.  A [write] whose joined text is not empty and does not end with a
    newline starts a paragraph of its own: whatever block or [write]
    comes next stands exactly one blank line after that text. *)
Theorem write_then_next_is_a_new_paragraph (content : list ContentValue)
  (this : ProseWriter) :
  let joined :=
    join " " (map (fun c => escapeUntrusted (safeMode this) c TrimEnd) content) in
  joined <> "" -> ~ EndsWith joined nl ->
  (forall b,
     toString (appendBlock b (write content this))
     = toString this ++ fst (padding this) ++ joined ++ nl ++ nl
         ++ toString (appendBlock b (newWriter (safeMode this)))) /\
  (forall next,
     toString (write next (write content this))
     = toString this ++ fst (padding this) ++ joined ++ nl ++ nl
         ++ join " "
              (map (fun c => escapeUntrusted (safeMode this) c TrimEnd) next)
         ++ nl).
Proof.
  intros joined Hne Hend.
  assert (Ew : write content this = pushPadded (joined ++ nl) this)
    by now apply write_pushes.
  assert (Hm : safeMode (pushPadded (joined ++ nl) this) = safeMode this)
    by now rewrite pushPadded_eq.
  split.
  - intros b. rewrite Ew, appendBlock_body, Hm.
    exact (paragraph_break_after joined _ true this Hne Hend).
  - intros next. rewrite Ew.
    rewrite (write_nonempty next).
    2:{ rewrite pushPadded_eq. simpl. destruct (parts this); discriminate. }
    rewrite Hm.
    exact (paragraph_break_after joined _ true this Hne Hend).
Qed.

Lemma write_then_next_is_a_new_paragraph_witness :
  toString (write [VString "b"] (write [VString "a"] (newWriter false)))
    = "a" ++ nl ++ nl ++ "b" ++ nl.
Proof.
  exact (proj2 (write_then_next_is_a_new_paragraph [VString "a"]
                  (newWriter false) ltac:(discriminate) not_EndsWith_nl_a)
           [VString "b"]).
Defined.

Lemma allChars_trimEnd (P : ascii -> bool) (s : string) :
  allChars P s = true -> allChars P (trimEnd s) = true.
Proof.
  induction s as [|c s IH]; simpl; [reflexivity|].
  rewrite andb_true_iff. intros [Hc Hs].
  destruct (isWhiteSpace c && String.eqb (trimEnd s) ""); [reflexivity|].
  simpl. now rewrite Hc, IH.
Qed.

Lemma notAngle_escapeMarkdownText (value : string) :
  allChars notAngle (escapeMarkdownText value) = true.
Proof.
  apply allChars_escapeMarkdownText; try reflexivity.
  induction value as [|c s IH]; simpl; [reflexivity|].
  rewrite IH, andb_true_r. unfold notAngle, inClass. simpl.
  destruct (Ascii.eqb c "<"), (Ascii.eqb c ">"), (Ascii.eqb c "&"); reflexivity.
Qed.

(** X24.  In safe mode a plain string that is not marked trusted cannot,
    as the content of a tag, close the tag or open another one: what
    stands between the opening and the closing line holds neither [<] nor
    [>].  Content that is marked trusted, a [SafeString] a safe formatter
    has returned or a writer, is written between the two lines as it is,
    right-trimmed: nothing is promised of it. *)
Theorem safe_tag_body_has_no_markup (name : string) (this : ProseWriter) :
  safeMode this = true ->
  let around body :=
    toString this ++ fst (padding this)
      ++ "<" ++ name ++ ">" ++ nl ++ body ++ nl ++ "</" ++ name ++ ">" ++ nl in
  (forall value, exists body,
      toString (tag name (inl (VString value)) this) = around body
      /\ allChars notAngle body = true) /\
  (forall trusted,
      toString (tag name (inl (VSafe trusted)) this) = around (trimEnd trusted)) /\
  (forall w,
      toString (tag name (inl (VWriter w)) this)
      = around (trimEnd (toString w))).
Proof.
  intros Hs around. split; [|split].
  - intros value. exists (trimEnd (escapeMarkdownText value)). split.
    + unfold tag, escapeUntrusted. rewrite Hs. simpl.
      now rewrite toString_pushPadded.
    + apply allChars_trimEnd. apply notAngle_escapeMarkdownText.
  - intros trusted. unfold tag, escapeUntrusted. rewrite Hs. simpl.
    now rewrite toString_pushPadded.
  - intros w. unfold tag, escapeUntrusted. rewrite Hs. simpl.
    now rewrite toString_pushPadded.
Qed.

Lemma safe_tag_body_has_no_markup_witness :
  exists body,
    toString (tag "note" (inl (VString "</note><b>")) (newWriter true))
      = "<note>" ++ nl ++ body ++ nl ++ "</note>" ++ nl
    /\ allChars notAngle body = true.
Proof.
  exact (proj1 (safe_tag_body_has_no_markup "note" (newWriter true) eq_refl)
           "</note><b>").
Defined.

(* ================================================================= *)
(** ** The message of a validation error *)

Lemma numberIssues_length (start : nat) (l : list ValidationIssue) :
  List.length (numberIssues start l) = List.length l.
Proof.
  revert start. induction l as [|issue rest IH]; intros start; simpl;
    [reflexivity|]. now rewrite IH.
Qed.

Lemma numberIssues_nth (l : list ValidationIssue) :
  forall start i issue,
    nth_error l i = Some issue ->
    nth_error (numberIssues start l) i
    = Some (decimal (start + i + 1) ++ ". " ++ issuePrefix issue
              ++ message issue).
Proof.
  induction l as [|first rest IH]; intros start i issue H.
  - destruct i; discriminate.
  - destruct i as [|i]; simpl in H.
    + injection H as ->. simpl. now rewrite Nat.add_0_r.
    + simpl. rewrite (IH (S start) i issue H).
      now replace (S start + i + 1) with (start + S i + 1) by lia.
Qed.

Lemma issuePrefix_cases (issue : ValidationIssue) :
  (issuePrefix issue = "" /\ (path issue = None \/ path issue = Some "")) \/
  (exists p, path issue = Some p /\ p <> ""
             /\ issuePrefix issue = p ++ ": ").
Proof.
  unfold issuePrefix. destruct (path issue) as [p|]; [|left; auto].
  destruct (String.eqb p "") eqn:E.
  - apply String.eqb_eq in E. subst. left; auto.
  - apply String.eqb_neq in E. right. now exists p.
Qed.

(** X25.  A validation error keeps the format and the issues it was made
    from; its message is the title (the label, or the upper-cased format
    and [validation failed]), a newline, and then either the fixed
    sentence for no issues or one entry per issue, in order, numbered
    from 1, with the issue's path and a colon in front of the message
    only when the path is a non-empty string. *)
Theorem validation_error_message (format : OutputFormat)
  (l : list ValidationIssue) (label : option string) :
  let e := newValidationError format l label in
  let title :=
    match label with
    | Some t => t
    | None => formatUpper format ++ " validation failed"
    end in
  errorFormat e = format /\ errorIssues e = l /\
  exists entries,
    errorMessage e
      = title ++ nl
          ++ (match l with
              | [] => "No validation issues were provided."
              | _ => join nl entries
              end)
    /\ List.length entries = List.length l
    /\ forall i issue,
         nth_error l i = Some issue ->
         exists prefix,
           nth_error entries i
             = Some (decimal (i + 1) ++ ". " ++ prefix ++ message issue)
           /\ ((prefix = "" /\ (path issue = None \/ path issue = Some ""))
               \/ exists p, path issue = Some p /\ p <> ""
                            /\ prefix = p ++ ": ").
Proof.
  intros e title. split; [reflexivity|]. split; [reflexivity|].
  exists (numberIssues 0 l). split; [|split].
  - unfold e, newValidationError, formatValidationIssues. simpl.
    destruct label, l; reflexivity.
  - apply numberIssues_length.
  - intros i issue H. exists (issuePrefix issue). split.
    + exact (numberIssues_nth l 0 i issue H).
    + apply issuePrefix_cases.
Qed.
